(** * reynir_correct.wrappers: sentence segmentation, offset tracking,
      annotation splicing and output formats

    A shallow embedding of [src/reynir_correct/wrappers.py].

    Conventions of the embedding:
    - a Python [str] is a [string], one [ascii] standing for one character
      of the [str], so that [String.length] is Python's [len];
    - a Python [int] is a [Z]; list positions obtained from [enumerate]
      and [len] are [nat];
    - an attribute that may be [None] is an [option];
    - a [Dict[int, int]] is a [gmap Z Z];
    - an exception is a [Raise] of the [result] monad;
    - token objects are mutable and shared between lists: a sentence's
      tokens live in a store (a list indexed by address) and a Python list
      of tokens derived from it is a list of addresses. *)

From Stdlib Require Import ZArith String Ascii DecimalString Lia.
From stdpp Require Import base option list gmap strings sorting.

(** ** Python primitives used by the module *)

Module Py.

Inductive exn : Type :=
| IndexError
| KeyError
| AssertionError.

Inductive result (A : Type) : Type :=
| Ok (a : A)
| Raise (e : exn).
Arguments Ok {A} a.
Arguments Raise {A} e.

#[export] Instance result_ret : MRet result := fun _ a => Ok a.
#[export] Instance result_bind : MBind result := fun _ _ f m =>
  match m with
  | Ok a => f a
  | Raise e => Raise e
  end.

#[export] Instance result_fmap : FMap result := fun _ _ f m =>
  match m with
  | Ok a => Ok (f a)
  | Raise e => Raise e
  end.

(** Truth value of an optional string: [None] and the empty string
    are false. *)
Definition truthy (s : option string) : bool :=
  match s with
  | Some (String _ _) => true
  | _ => false
  end.

(** [a or b] on optional strings. *)
Definition or_ (a b : option string) : option string :=
  if truthy a then a else b.

(** The string an [or] chain ending in the empty string evaluates to. *)
Definition or_empty (a : option string) : string :=
  match a with
  | Some s => s
  | None => EmptyString
  end.

(** [str(i)] for an integer. *)
Definition str_int (i : Z) : string := NilZero.string_of_int (Z.to_int i).

(** [str(s)], as [str.format] renders an optional string. *)
Definition str_opt (s : option string) : string :=
  match s with
  | Some s => s
  | None => "None"%string
  end.

(** [sep.join(l)]. *)
Definition join (sep : string) (l : list string) : string :=
  String.concat sep l.

(** [s.replace(old, new)] for a one-character [old]. *)
Fixpoint replace (old : ascii) (new : string) (s : string) : string :=
  match s with
  | EmptyString => EmptyString
  | String c rest =>
      if Ascii.eqb c old then new +:+ replace old new rest
      else String c (replace old new rest)
  end.

(** [l[i]]: the position addressed by index [i] of a list of length
    [length l], counting from the end when [i] is negative; [None]
    stands for [IndexError]. *)
Definition index {A} (l : list A) (i : Z) : option nat :=
  let n := Z.of_nat (length l) in
  if ((0 <=? i) && (i <? n))%Z then Some (Z.to_nat i)
  else if ((i <? 0) && (- n <=? i))%Z then Some (Z.to_nat (i + n))
  else None.

(** A slice bound adjusted to a list of length [n]. *)
Definition clamp (n : nat) (i : Z) : nat :=
  if (i <? 0)%Z then Z.to_nat (Z.max 0 (i + Z.of_nat n))
  else Z.to_nat (Z.min i (Z.of_nat n)).

(** [del l[lo:hi]]. *)
Definition del_slice {A} (l : list A) (lo hi : Z) : list A :=
  let a := clamp (length l) lo in
  let b := clamp (length l) hi in
  if (a <? b)%nat then take a l ++ drop b l else l.

End Py.
Import Py.

(** Characters of the quoting rules. *)
Definition DQ : ascii := "034"%char.
Definition BS : ascii := "\"%char.

(** ** Data model *)

(** [CorrectToken]: the attributes this module reads or writes.  [error]
    holds [str(t.error)] when the token carries an error. *)
Record CorrectToken : Type := mkTok {
  kind : Z;
  txt : option string;
  original : option string;
  error : option string
}.

Definition set_txt (s : option string) (t : CorrectToken) : CorrectToken :=
  {| kind := kind t; txt := s; original := original t; error := error t |}.

#[export] Instance CorrectToken_inhabited : Inhabited CorrectToken :=
  populate (mkTok 0 None None None).

(** [Annotation]: [start] and [end] are token indices that do not count
    the sentence-begin token. *)
Record Annotation : Type := mkAnn {
  start : Z;
  end_ : Z;
  code : string;
  text : string;
  detail : option string;
  suggest : option string;
  ann_original : option string;
  suggestlist : option (list string)
}.

(** A parser terminal. *)
Record Terminal : Type := mkTerminal {
  index : Z;
  terminal_text : string
}.

(** The checker's result for one sentence.  Only the presence of the
    parse tree is observed. *)
Record CheckedSentence : Type := mkSent {
  tree : option unit;
  terminals : option (list Terminal);
  tokens : list CorrectToken;
  tidy_text : string;
  annotations : list Annotation
}.

Record AnnTokenDict : Type := mkAnnTokenDict {
  k : Z;
  x : option string;
  o : option string
}.

Record AnnDict : Type := mkAnnDict {
  ad_start : Z;
  ad_end : Z;
  start_char : Z;
  end_char : Z;
  ad_code : string;
  ad_text : string;
  ad_detail : string;
  ad_suggest : string
}.

Record AnnResultDict : Type := mkAnnResultDict {
  ard_original : string;
  ard_corrected : string;
  ard_tokens : list AnnTokenDict;
  ard_annotations : list AnnDict
}.

(** The keyword options the module reads; [None] is an absent key. *)
Record Options : Type := mkOptions {
  format : option string;
  annotations_opt : option bool;
  print_all : option bool;
  spaced : option bool;
  normalize : option bool
}.

(** [options.get(key, default)] for a boolean option. *)
Definition get (o : option bool) (default : bool) : bool :=
  match o with
  | Some b => b
  | None => default
  end.

(** What the module imports from the tokenizer, the checker and the
    standard library, and formats through their own [__str__]. *)
Class Collaborators : Type := {
  (** membership in [TOK.END] *)
  TOK_END : Z -> bool;
  TOK_S_END : Z;
  (** [detokenize(toklist, normalize=...)] *)
  detokenize : list CorrectToken -> bool -> string;
  text_from_tokens : list CorrectToken -> string;
  normalized_text_from_tokens : list CorrectToken -> string;
  (** [check_tokens(toklist, **inneroptions)] *)
  check_tokens : list CorrectToken -> option CheckedSentence;
  (** [str(ann)] *)
  Annotation_str : Annotation -> string;
  (** [json_dumps(ard)] *)
  json_dumps : AnnResultDict -> string;
  (** [str(cann.suggestlist)] *)
  suggestlist_str : option (list string) -> string;
  (** [val(t, quote_word=True)], or the empty quote pair, formatted *)
  val_quoted : CorrectToken -> string;
  (** the JSON line of one token in [check_spelling] *)
  json_token_line : CorrectToken -> string
}.

(** ** quote *)

Definition quote (s : option string) : string :=
  if negb (truthy s) then String DQ (String DQ EmptyString)
  else
    String DQ
      (replace DQ (String BS (String DQ EmptyString))
         (replace BS (String BS (String BS EmptyString)) (or_empty s))
       +:+ String DQ EmptyString).

(** The two replacements of [quote], in its order. *)
Definition escape (s : string) : string :=
  replace DQ (String BS (String DQ EmptyString))
    (replace BS (String BS (String BS EmptyString)) s).

(** Unescaping, the inverse the quoting rules are meant to have: after
    the opening quote, a backslash makes the next character literal and
    the first bare quote must close the string. *)
Fixpoint unquote_body (s : string) : option string :=
  match s with
  | EmptyString => None
  | String c rest =>
      if Ascii.eqb c DQ then
        match rest with
        | EmptyString => Some EmptyString
        | String _ _ => None
        end
      else if Ascii.eqb c BS then
        match rest with
        | EmptyString => None
        | String d rest' => String d <$> unquote_body rest'
        end
      else String c <$> unquote_body rest
  end.

Definition unquote (s : string) : option string :=
  match s with
  | EmptyString => None
  | String c rest => if Ascii.eqb c DQ then unquote_body rest else None
  end.

(** ** sentence_stream *)

Section SentenceStream.
Context `{Collaborators}.

(** The loop of [sentence_stream] over the tokens that remain, with the
    buffer [curr_sent]; the result is the sequence of yielded lists. *)
Fixpoint sentence_stream_from (curr_sent : list CorrectToken)
    (toks : list CorrectToken) : list (list CorrectToken) :=
  match toks with
  | [] =>
      match curr_sent with
      | [] => []
      | _ :: _ => [curr_sent]
      end
  | t :: toks' =>
      let curr_sent := curr_sent ++ [t] in
      if TOK_END (kind t) then curr_sent :: sentence_stream_from [] toks'
      else sentence_stream_from curr_sent toks'
  end.

(** [toks] is the token stream [errtokenize(gen, **options)]. *)
Definition sentence_stream (toks : list CorrectToken)
    : list (list CorrectToken) :=
  sentence_stream_from [] toks.

(** A token that does not end a sentence. *)
Definition inner (t : CorrectToken) : Prop := TOK_END (kind t) = false.

(** A token list that ends with a terminator. *)
Definition terminated (s : list CorrectToken) : Prop :=
  exists t, last s = Some t /\ TOK_END (kind t) = true.

(** A yielded list as it should be cut: not empty, and no terminator
    before its last token. *)
Definition well_cut (s : list CorrectToken) : Prop :=
  s <> [] /\ Forall inner (removelast s).

(** The number of terminators in a token stream. *)
Definition terminators (toks : list CorrectToken) : nat :=
  length (filter (fun t => TOK_END (kind t) = true) toks).

End SentenceStream.

(** ** Sorting annotations *)

(** [(ann.start, ann.end)], the key of both sort calls. *)
Definition sort_key (ann : Annotation) : Z * Z := (start ann, end_ ann).

(** Tuple comparison [p <= q]. *)
Definition key_le (p q : Z * Z) : bool :=
  ((p.1 <? q.1) || ((p.1 =? q.1) && (p.2 <=? q.2)))%Z.

(** Whether [a] may stay in front of [b]: their keys are in the requested
    order.  With [reverse] the comparison is reversed; equal keys are in
    order either way, which keeps the sort stable. *)
Definition in_order (reverse : bool) (a b : Annotation) : bool :=
  if reverse then key_le (sort_key b) (sort_key a)
  else key_le (sort_key a) (sort_key b).

Fixpoint insert_sorted (reverse : bool) (a : Annotation)
    (l : list Annotation) : list Annotation :=
  match l with
  | [] => [a]
  | b :: l' =>
      if in_order reverse a b then a :: b :: l'
      else b :: insert_sorted reverse a l'
  end.

(** [sorted(l, key=lambda ann: (ann.start, ann.end), reverse=reverse)],
    and [l.sort(key=...)] for the list it leaves in [l]: a stable sort. *)
Definition sorted (reverse : bool) (l : list Annotation) : list Annotation :=
  foldr (insert_sorted reverse) [] l.

(** [a] may stay in front of [b] under the requested order. *)
Definition ordered (reverse : bool) (a b : Annotation) : Prop :=
  in_order reverse a b = true.

(** ** Token offsets *)

(** [len] of [t.original or t.txt or] the empty string. *)
Definition tok_len (t : CorrectToken) : Z :=
  Z.of_nat
    (String.length
       (or_empty (or_ (or_ (original t) (txt t)) (Some EmptyString)))).

(** [for ix, t in enumerate(toklist): token_offsets[ix] = offset;
     offset += len(...)], from position [ix] on. *)
Fixpoint token_offsets_loop (ix : nat) (toklist : list CorrectToken)
    (token_offsets : gmap Z Z) (offset : Z) : gmap Z Z * Z :=
  match toklist with
  | [] => (token_offsets, offset)
  | t :: rest =>
      token_offsets_loop (S ix) rest
        (<[Z.of_nat ix := offset]> token_offsets) (offset + tok_len t)
  end.

(** The characters a token list advances the running offset by. *)
Definition total_len (toklist : list CorrectToken) : Z :=
  foldr (fun t acc => (tok_len t + acc)%Z) 0%Z toklist.

(** [d[key]] on a dictionary. *)
Definition getkey (d : gmap Z Z) (key : Z) : result Z :=
  match d !! key with
  | Some v => Ok v
  | None => Raise KeyError
  end.

(** [l[i]] on a list. *)
Definition getitem {A} (l : list A) (i : Z) : result A :=
  match Py.index l i with
  | Some n =>
      match l !! n with
      | Some a => Ok a
      | None => Raise IndexError
      end
  | None => Raise IndexError
  end.

(** ** Splicing suggestions into the working copy *)

(** The tokens of a sentence as a store, and a Python list of them as the
    list of their addresses. *)
Definition deref (store : list CorrectToken) (l : list nat)
    : list CorrectToken :=
  (store !!!.) <$> l.

(** The body of [for xann in arev] on the store and [cleantoklist]. *)
Definition splice_step (st : list CorrectToken * list nat)
    (xann : Annotation) : result (list CorrectToken * list nat) :=
  let '(store, cleantoklist) := st in
  match suggest xann with
  | None => Ok st
  | Some _ =>
      a ← getitem cleantoklist (start xann + 1);
      let store := alter (set_txt (suggest xann)) a store in
      let cleantoklist :=
        if (start xann <? end_ xann)%Z
        then del_slice cleantoklist (start xann + 2) (end_ xann + 2)
        else cleantoklist in
      Ok (store, cleantoklist)
  end.

Fixpoint splice_loop (st : list CorrectToken * list nat)
    (arev : list Annotation) : result (list CorrectToken * list nat) :=
  match arev with
  | [] => Ok st
  | xann :: rest => st' ← splice_step st xann; splice_loop st' rest
  end.

(** [cleantoklist = toklist[:]] followed by the loop over [arev], for the
    annotation list [a] already sorted in place. *)
Definition splice (toklist : list CorrectToken) (a : list Annotation)
    : result (list CorrectToken * list nat) :=
  let arev := sorted true a in
  splice_loop (toklist, seq 0 (length toklist)) arev.

(** The working copy as Python reads it. *)
Definition working_copy (st : list CorrectToken * list nat)
    : list CorrectToken :=
  deref st.1 st.2.

(** A list of addresses in which every token of the store occurs at most
    once, as in any slice of a copy of the sentence's list. *)
Definition wf_work (store : list CorrectToken) (l : list nat) : Prop :=
  NoDup l /\ Forall (fun a => (a < length store)%nat) l.




(** [yann] lies wholly before [xann]. *)
Definition before (xann yann : Annotation) : Prop :=
  (end_ yann < start xann)%Z.



(** ** check_grammar *)

Definition NL : string := String "010"%char EmptyString.

(** The state the loop over sentences carries. *)
Record GrammarState : Type := mkGrammarState {
  accumul : list string;
  annlist : list string;
  offset : Z
}.

(** One element of the [annotations] comprehension of the json format. *)
Definition ann_dict (len_tokens : nat) (token_offsets : gmap Z Z)
    (offset : Z) (ann : Annotation) : result AnnDict :=
  sc ← getkey token_offsets (start ann);
  ec ← (if (end_ ann + 1 <? Z.of_nat len_tokens)%Z
        then getkey token_offsets (end_ ann + 1)
        else Ok offset);
  Ok {| ad_start := start ann;
        ad_end := end_ ann;
        start_char := sc;
        end_char := (ec - 1)%Z;
        ad_code := code ann;
        ad_text := text ann;
        ad_detail := or_empty (or_ (detail ann) (Some EmptyString));
        ad_suggest := or_empty (or_ (suggest ann) (Some EmptyString)) |}.

(** The line of one annotation in the m2 format. *)
Definition m2_line (mann : Annotation) : string :=
  "A " +:+ str_int (start mann) +:+ " " +:+ str_int (end_ mann)
  +:+ "|||" +:+ code mann +:+ "|||" +:+ str_opt (suggest mann)
  +:+ "|||REQUIRED|||-NONE-|||0".

(** The character span the json format computes for [ann] in the record
    [d], given the offsets stored for the sentence, the number of its
    tokens and the running offset after it: [start_char] is the offset
    stored under the key [start]; [end_char] is one less than the offset
    stored under the key [end + 1] when [end + 1] is below the number of
    tokens, and one less than the running offset otherwise.  The keys
    are list positions of [toklist], which counts the sentence-begin
    token, while [start] and [end] do not count it. *)
Definition char_span (len_tokens : nat) (token_offsets : gmap Z Z)
    (offset' : Z) (ann : Annotation) (d : AnnDict) : Prop :=
  ad_start d = start ann /\ ad_end d = end_ ann /\
  token_offsets !! start ann = Some (start_char d) /\
  if (end_ ann + 1 <? Z.of_nat len_tokens)%Z
  then token_offsets !! (end_ ann + 1)%Z = Some (end_char d + 1)%Z
  else end_char d = (offset' - 1)%Z.

Section Grammar.
Context `{Collaborators}.

(** The line of one annotation in the csv format. *)
Definition csv_line (cann : Annotation) : string :=
  code cann +:+ "," +:+ str_opt (ann_original cann)
  +:+ "," +:+ str_opt (suggest cann)
  +:+ "," +:+ str_int (start cann) +:+ "," +:+ str_int (end_ cann)
  +:+ "," +:+ suggestlist_str (suggestlist cann).

(** The [tokens] list built from the checked sentence. *)
Definition ann_tokens (sent : CheckedSentence)
    : result (list AnnTokenDict) :=
  match tree sent with
  | None =>
      Ok ((fun d => {| k := kind d; x := txt d;
                       o := or_ (original d) (txt d) |})
            <$> tokens sent)
  | Some _ =>
      match terminals sent with
      | None => Raise AssertionError
      | Some ts =>
          let token_map : gmap Z string :=
            foldl (fun m t => <[index t := terminal_text t]> m) ∅ ts in
          Ok (imap (fun ix d =>
                      {| k := kind d;
                         x := match token_map !! Z.of_nat ix with
                              | Some s => Some s
                              | None => txt d
                              end;
                         o := or_ (original d) (txt d) |})
                (tokens sent))
      end
  end.

(** The text unit of a sentence and the annotation buffer after it:
    the annotation lines are echoed beneath the text, or kept for the
    end of the document. *)
Definition echo_annotations (options : Options) (txt : string)
    (annlist new : list string) : string * list string :=
  if get (annotations_opt options) false then
    let annlist := annlist ++ new in
    match annlist with
    | _ :: _ =>
        if negb (get (print_all options) false)
        then (txt +:+ NL +:+ join NL annlist, [])
        else (txt, annlist)
    | [] => (txt, annlist)
    end
  else (txt, annlist).

(** The body of the loop over the sentences of [sentence_stream]. *)
Definition check_grammar_sentence (options : Options) (st : GrammarState)
    (toklist : list CorrectToken) : result GrammarState :=
  let format := default "json"%string (format options) in
  let len_tokens := length toklist in
  match check_tokens toklist with
  | None => Ok st
  | Some sent =>
      tokens ← ann_tokens sent;
      let '(token_offsets, offset) :=
        token_offsets_loop 0 toklist ∅ (offset st) in
      let cleaned := detokenize toklist true in
      let a := sorted false (annotations sent) in
      if String.eqb format "text" || String.eqb format "textplustoks" then
        '(store, cleantoklist) ← splice toklist a;
        let txt := detokenize (deref store cleantoklist) true in
        let '(txt, annlist) :=
          echo_annotations options txt (annlist st) (Annotation_str <$> a) in
        Ok {| accumul := accumul st ++ [txt];
              annlist := annlist; offset := offset |}
      else if String.eqb format "json" then
        annotations ← mapM (ann_dict len_tokens token_offsets offset) a;
        let ard := {| ard_original := cleaned;
                      ard_corrected := tidy_text sent;
                      ard_tokens := tokens;
                      ard_annotations := annotations |} in
        Ok {| accumul := accumul st ++ [json_dumps ard];
              annlist := annlist st; offset := offset |}
      else if String.eqb format "csv" then
        Ok {| accumul := accumul st ++ (csv_line <$> a);
              annlist := annlist st; offset := offset |}
      else if String.eqb format "m2" then
        Ok {| accumul :=
                accumul st ++ ["S " +:+ cleaned] ++ (m2_line <$> a) ++ [EmptyString];
              annlist := annlist st; offset := offset |}
      else
        Ok {| accumul := accumul st;
              annlist := annlist st; offset := offset |}
  end.

Fixpoint check_grammar_loop (options : Options) (st : GrammarState)
    (sents : list (list CorrectToken)) : result GrammarState :=
  match sents with
  | [] => Ok st
  | toklist :: rest =>
      st' ← check_grammar_sentence options st toklist;
      check_grammar_loop options st' rest
  end.

(** The string built after the loop. *)
Definition check_grammar_finish (options : Options) (st : GrammarState)
    : string :=
  if get (print_all options) true then
    let accumstr := join " " (accumul st) in
    match annlist st with
    | _ :: _ => accumstr +:+ NL +:+ join NL (annlist st)
    | [] => accumstr
    end
  else join NL (accumul st).

(** [check_grammar], on the token stream of the input. *)
Definition check_grammar (options : Options) (toks : list CorrectToken)
    : result string :=
  st ← check_grammar_loop options
        {| accumul := []; annlist := []; offset := 0 |}
        (sentence_stream toks);
  Ok (check_grammar_finish options st).

(** The tokens of the sentences the checker returns a result for, in
    document order: the tokens the loop over sentences processes. *)
Definition processed (sents : list (list CorrectToken))
    : list CorrectToken :=
  concat (filter (fun toklist => is_Some (check_tokens toklist)) sents).


End Grammar.

(** ** test_grammar *)

(** The state of the loop of [test_grammar].  The token objects appended
    to [alltoks] are the ones the splicing pass later writes to, so
    [alltoks] shows their texts as that pass leaves them. *)
Record TestState : Type := mkTestState {
  t_accumul : list string;
  t_annlist : list string;
  t_offset : Z;
  alltoks : list CorrectToken
}.

Section TestGrammar.
Context `{Collaborators}.

Definition test_grammar_sentence (options : Options) (st : TestState)
    (toklist : list CorrectToken) : result TestState :=
  match check_tokens toklist with
  | None => Ok st
  | Some sent =>
      let '(token_offsets, offset) :=
        token_offsets_loop 0 toklist ∅ (t_offset st) in
      let a := sorted false (annotations sent) in
      '(store, cleantoklist) ← splice toklist a;
      let txt := detokenize (deref store cleantoklist) true in
      let '(txt, annlist) :=
        echo_annotations options txt (t_annlist st) (Annotation_str <$> a) in
      Ok {| t_accumul := t_accumul st ++ [txt];
            t_annlist := annlist;
            t_offset := offset;
            alltoks := alltoks st ++ deref store (seq 0 (length toklist)) |}
  end.

Fixpoint test_grammar_loop (options : Options) (st : TestState)
    (sents : list (list CorrectToken)) : result TestState :=
  match sents with
  | [] => Ok st
  | toklist :: rest =>
      st' ← test_grammar_sentence options st toklist;
      test_grammar_loop options st' rest
  end.

Definition test_grammar (options : Options) (toks : list CorrectToken)
    : result (string * list CorrectToken) :=
  st ← test_grammar_loop options
        {| t_accumul := []; t_annlist := []; t_offset := 0; alltoks := [] |}
        (sentence_stream toks);
  Ok (join NL (t_accumul st), alltoks st).

End TestGrammar.

(** ** check_spelling *)

Record SpellingState : Type := mkSpellingState {
  unisum : list string;
  s_annlist : list string
}.

Section Spelling.
Context `{Collaborators}.

Definition to_text (options : Options) : list CorrectToken -> string :=
  if get (spaced options) false then
    if get (normalize options) false then normalized_text_from_tokens
    else text_from_tokens
  else fun toklist => detokenize toklist true.

(** The end-of-sentence marker line of the csv format. *)
Definition csv_end_marker : string :=
  "0," +:+ String DQ (String DQ (String "," (String DQ (String DQ EmptyString)))).

(** What one token adds to [allsum]. *)
Definition spelling_token_lines (format : string) (t : CorrectToken)
    : list string :=
  if String.eqb format "csv" then
    if truthy (txt t) then
      [str_int (kind t) +:+ "," +:+ quote (txt t) +:+ "," +:+ val_quoted t
       +:+ "," +:+ quote (Some (or_empty (error t)))]
    else if (kind t =? TOK_S_END)%Z then [csv_end_marker]
    else []
  else if String.eqb format "json" then [json_token_line t]
  else [].

(** The body of the loop over sentences; [allsum] is empty whenever the
    body starts, so it is local to one sentence here. *)
Definition check_spelling_sentence (options : Options) (st : SpellingState)
    (toklist : list CorrectToken) : SpellingState :=
  let format := default "json"%string (format options) in
  if String.eqb format "text" then
    let '(txt, annlist) :=
      echo_annotations options (to_text options toklist) (s_annlist st)
        (omap error toklist) in
    {| unisum := unisum st ++ [txt]; s_annlist := annlist |}
  else
    let allsum := toklist ≫= spelling_token_lines format in
    {| unisum := unisum st ++ allsum; s_annlist := s_annlist st |}.

Definition check_spelling_finish (options : Options) (st : SpellingState)
    : string :=
  if get (print_all options) false then
    let unistr := join " " (unisum st) in
    match s_annlist st with
    | _ :: _ => unistr +:+ NL +:+ join NL (s_annlist st)
    | [] => unistr
    end
  else join NL (unisum st).

Definition check_spelling (options : Options) (toks : list CorrectToken)
    : string :=
  check_spelling_finish options
    (foldl (check_spelling_sentence options)
       {| unisum := []; s_annlist := [] |} (sentence_stream toks)).

End Spelling.

(** ** Concrete collaborators for closed examples *)

(** Token kinds of the tokenizer used in the examples. *)
Definition S_BEGIN : Z := 11001.
Definition S_END : Z := 11002.
Definition P_END : Z := 10002.
Definition WORD : Z := 6.

(** A detokenizer that joins the non-empty token texts with single
    spaces. *)
Definition spaced_texts (toklist : list CorrectToken) : string :=
  join " " (omap (fun t => if truthy (txt t) then txt t else None) toklist).

(** A checker that parses nothing and reports the annotations [anns] for
    every sentence of more than one token, and no result otherwise. *)
Definition fixed_checker (anns : list Annotation)
    (toklist : list CorrectToken) : option CheckedSentence :=
  match toklist with
  | _ :: _ :: _ =>
      Some {| tree := None; terminals := None; tokens := toklist;
              tidy_text := spaced_texts toklist; annotations := anns |}
  | _ => None
  end.

Definition example_collaborators (anns : list Annotation) : Collaborators :=
  {| TOK_END := fun kd => ((kd =? S_END) || (kd =? P_END))%Z;
     TOK_S_END := S_END;
     detokenize := fun toklist _ => spaced_texts toklist;
     text_from_tokens := spaced_texts;
     normalized_text_from_tokens := spaced_texts;
     check_tokens := fixed_checker anns;
     Annotation_str := code;
     json_dumps := ard_original;
     suggestlist_str := fun _ => "None"%string;
     val_quoted := fun _ => String DQ (String DQ EmptyString);
     json_token_line :=
       fun t => str_int (kind t) +:+ ":" +:+ or_empty (txt t) |}.

Definition word (s : string) : CorrectToken :=
  mkTok WORD (Some s) (Some s) None.
Definition begin_tok : CorrectToken := mkTok S_BEGIN None None None.
Definition end_tok : CorrectToken := mkTok S_END None None None.

Definition ann (st en : Z) (c : string) (sg : option string) : Annotation :=
  mkAnn st en c c None sg None None.

(** ** test_spelling *)

(** An element of a [TokenSumType] list: a sentence's token list or one
    token. *)
Inductive TokenSum : Type :=
| SumTokens (toklist : list CorrectToken)
| SumToken (t : CorrectToken).

Record TestSpellingState : Type := mkTestSpellingState {
  ts_unisum : list string;
  toksum : list TokenSum
}.

Section TestSpelling.
Context `{Collaborators}.

(** The body of the loop of [test_spelling], up to its [continue]. *)
Definition test_spelling_sentence (options : Options)
    (st : TestSpellingState) (toklist : list CorrectToken)
    : TestSpellingState :=
  {| ts_unisum := ts_unisum st ++ [to_text options toklist];
     toksum :=
       if get (print_all options) false
       then toksum st ++ (SumToken <$> toklist)
       else toksum st ++ [SumTokens toklist] |}.

(** [test_spelling]; its [annlist] is created empty and never appended
    to. *)
Definition test_spelling (options : Options) (toks : list CorrectToken)
    : string * list TokenSum :=
  let st := foldl (test_spelling_sentence options)
              {| ts_unisum := []; toksum := [] |} (sentence_stream toks) in
  let annlist : list string := [] in
  let unistr :=
    if get (print_all options) false then
      let unistr := join " " (ts_unisum st) in
      match annlist with
      | _ :: _ => unistr +:+ NL +:+ join NL annlist
      | [] => unistr
      end
    else join NL (ts_unisum st) in
  (unistr, toksum st).

(** ** check_errors *)

(** [check_errors], on the token stream of the input; [all_errors] is the
    option of that name. *)
Definition check_errors (all_errors : option bool) (options : Options)
    (toks : list CorrectToken) : result string :=
  if get all_errors true then check_grammar options toks
  else Ok (check_spelling options toks).

(** The annotation lines of a document, sentence by sentence, each
    sentence's in ascending order. *)
Definition annotation_lines (sents : list (list CorrectToken))
    : list string :=
  sents ≫= fun toklist =>
    match check_tokens toklist with
    | Some sent => Annotation_str <$> sorted false (annotations sent)
    | None => []
    end.

End TestSpelling.

(** The tokens of a [TokenSumType] list, in order. *)
Definition flatten (l : list TokenSum) : list CorrectToken :=
  l ≫= fun e =>
    match e with
    | SumTokens toklist => toklist
    | SumToken t => [t]
    end.

(** The characters of [s] that [quote] escapes. *)
Fixpoint escaped (s : string) : nat :=
  match s with
  | EmptyString => 0
  | String c rest =>
      (if Ascii.eqb c BS || Ascii.eqb c DQ then 1 else 0) + escaped rest
  end.

(** Two tokens that differ in their text at most. *)
Definition same_but_txt (t t' : CorrectToken) : Prop :=
  kind t' = kind t /\ original t' = original t /\ error t' = error t.

(** The number of entries one checked sentence with [n] annotations adds
    to the accumulator. *)
Definition units_of (format : string) (n : nat) : nat :=
  if String.eqb format "text" || String.eqb format "textplustoks" then 1
  else if String.eqb format "json" then 1
  else if String.eqb format "csv" then n
  else if String.eqb format "m2" then 2 + n
  else 0.

(** The format is none of those [check_grammar] knows. *)
Definition unknown_format (format : string) : Prop :=
  String.eqb format "text" = false /\
  String.eqb format "textplustoks" = false /\
  String.eqb format "json" = false /\
  String.eqb format "csv" = false /\
  String.eqb format "m2" = false.

(** The tree of a checked sentence comes with its terminals. *)
Definition terminals_given (sent : CheckedSentence) : Prop :=
  tree sent = None \/ terminals sent <> None.

(** An annotation whose offsets the json format cannot look up. *)
Definition off_sentence (len_tokens : nat) (ann : Annotation) : Prop :=
  ~ (0 <= start ann < Z.of_nat len_tokens)%Z \/ (end_ ann + 1 < 0)%Z.

(** Collaborators for closed examples whose checker returns [sent] for
    every sentence. *)
Definition example_with_result (sent : CheckedSentence) : Collaborators :=
  {| TOK_END := fun kd => ((kd =? S_END) || (kd =? P_END))%Z;
     TOK_S_END := S_END;
     detokenize := fun toklist _ => spaced_texts toklist;
     text_from_tokens := spaced_texts;
     normalized_text_from_tokens := spaced_texts;
     check_tokens := fun _ => Some sent;
     Annotation_str := code;
     json_dumps := ard_original;
     suggestlist_str := fun _ => "None"%string;
     val_quoted := fun _ => String DQ (String DQ EmptyString);
     json_token_line :=
       fun t => str_int (kind t) +:+ ":" +:+ or_empty (txt t) |}.

(** Collaborators for closed examples whose json record shows the
    character span of each annotation, as [start_char-end_char]. *)
Definition example_spans (anns : list Annotation) : Collaborators :=
  {| TOK_END := fun kd => ((kd =? S_END) || (kd =? P_END))%Z;
     TOK_S_END := S_END;
     detokenize := fun toklist _ => spaced_texts toklist;
     text_from_tokens := spaced_texts;
     normalized_text_from_tokens := spaced_texts;
     check_tokens := fixed_checker anns;
     Annotation_str := code;
     json_dumps :=
       fun ard =>
         join ";"
           ((fun d => str_int (start_char d) +:+ "-" +:+ str_int (end_char d))
              <$> ard_annotations ard);
     suggestlist_str := fun _ => "None"%string;
     val_quoted := fun _ => String DQ (String DQ EmptyString);
     json_token_line :=
       fun t => str_int (kind t) +:+ ":" +:+ or_empty (txt t) |}.

(** * Properties *)

(** ** quote *)

Lemma escape_cons (c : ascii) (s : string) :
  escape (String c s) =
    if Ascii.eqb c BS then String BS (String BS (escape s))
    else if Ascii.eqb c DQ then String BS (String DQ (escape s))
    else String c (escape s).
Proof.
  unfold escape. simpl.
  destruct (Ascii.eqb c BS) eqn:Hbs.
  - reflexivity.
  - simpl. destruct (Ascii.eqb c DQ); reflexivity.
Qed.

Lemma unquote_body_escape (s : string) :
  unquote_body (escape s +:+ String DQ EmptyString) = Some s.
Proof.
  induction s as [|c s IH].
  - reflexivity.
  - rewrite escape_cons.
    destruct (Ascii.eqb c BS) eqn:Hbs.
    + apply Ascii.eqb_eq in Hbs. subst c. simpl.
      rewrite IH. reflexivity.
    + destruct (Ascii.eqb c DQ) eqn:Hdq.
      * apply Ascii.eqb_eq in Hdq. subst c. simpl. rewrite IH. reflexivity.
      * simpl. rewrite Hdq, Hbs. rewrite IH. reflexivity.
Qed.

(** C8: [quote] of an absent or empty string is the pair of two double
    quotes; for a non-empty [s] it is [s] between double quotes with
    every backslash doubled first and every double quote then preceded
    by a backslash, and unescaping that result gives [s] back. *)
Theorem quote_roundtrip :
  quote None = String DQ (String DQ EmptyString) /\
  quote (Some EmptyString) = String DQ (String DQ EmptyString) /\
  forall s : string, s <> EmptyString ->
    quote (Some s) =
      String DQ
        (replace DQ (String BS (String DQ EmptyString))
           (replace BS (String BS (String BS EmptyString)) s)
         +:+ String DQ EmptyString) /\
    unquote (quote (Some s)) = Some s.
Proof.
  split; [reflexivity|]. split; [reflexivity|].
  intros s Hs. destruct s as [|c s]; [congruence|].
  split; [reflexivity|].
  unfold quote. cbn [truthy negb or_empty unquote].
  change (Ascii.eqb DQ DQ) with true. cbv iota.
  apply (unquote_body_escape (String c s)).
Qed.

Lemma quote_roundtrip_witness :
  let s := String "a" (String BS (String DQ "b")) in
  s <> EmptyString /\ unquote (quote (Some s)) = Some s.
Proof.
  split; [discriminate|].
  apply quote_roundtrip. discriminate.
Defined.

(** ** sentence_stream *)

Section SentenceStreamProperties.
Context `{Collaborators}.

Lemma sentence_stream_from_inner curr toks :
  Forall inner toks ->
  sentence_stream_from curr toks =
    match curr ++ toks with [] => [] | _ :: _ => [curr ++ toks] end.
Proof.
  revert curr. induction toks as [|t toks IH]; intros curr Hin.
  - simpl. rewrite app_nil_r. reflexivity.
  - inversion Hin as [|? ? Ht Hrest]; subst. simpl.
    unfold inner in Ht. rewrite Ht. rewrite (IH _ Hrest).
    rewrite <- app_assoc. reflexivity.
Qed.

Lemma sentence_stream_from_terminator curr pre t rest :
  Forall inner pre -> TOK_END (kind t) = true ->
  sentence_stream_from curr (pre ++ t :: rest) =
    (curr ++ pre ++ [t]) :: sentence_stream_from [] rest.
Proof.
  revert curr. induction pre as [|p pre IH]; intros curr Hin Ht.
  - simpl. rewrite Ht. reflexivity.
  - inversion Hin as [|? ? Hp Hrest]; subst. simpl.
    unfold inner in Hp. rewrite Hp. rewrite (IH _ Hrest Ht).
    rewrite <- app_assoc. reflexivity.
Qed.

Lemma sentence_stream_from_spec curr toks :
  Forall inner curr ->
  let sents := sentence_stream_from curr toks in
  concat sents = curr ++ toks /\
  Forall well_cut sents /\
  Forall terminated (removelast sents) /\
  length sents =
    (terminators toks +
     match last (curr ++ toks) with
     | Some t => if TOK_END (kind t) then 0 else 1
     | None => 0
     end)%nat.
Proof.
  revert curr. induction toks as [|t toks IH]; intros curr Hcurr.
  - rewrite app_nil_r. destruct (decide (curr = [])) as [->|Hne].
    + simpl. repeat split; constructor.
    + assert (Hy : sentence_stream_from curr [] = [curr])
        by (destruct curr; [congruence|reflexivity]).
      rewrite Hy. simpl. rewrite app_nil_r.
      destruct (exists_last Hne) as [l' [z Hz]].
      rewrite Hz in Hcurr. apply Forall_app in Hcurr as [Hl' Hzin].
      split; [reflexivity|]. split.
      { constructor; [|constructor]. split; [exact Hne|].
        rewrite Hz, removelast_last. exact Hl'. }
      split; [constructor|].
      unfold terminators. simpl. rewrite Hz, last_snoc.
      inversion Hzin as [|? ? Hzi _]; subst. unfold inner in Hzi.
      rewrite Hzi. reflexivity.
  - simpl. destruct (TOK_END (kind t)) eqn:Ht.
    + destruct (IH [] (Forall_nil_2 _)) as (Hcat & Hcut & Hterm & Hlen).
      simpl in *. split.
      { rewrite Hcat. rewrite <- app_assoc. reflexivity. }
      split.
      { constructor; [|exact Hcut]. split.
        - destruct curr; discriminate.
        - rewrite removelast_last. exact Hcurr. }
      split.
      { destruct (sentence_stream_from [] toks) as [|s1 ss] eqn:Hss.
        - constructor.
        - change (removelast ((curr ++ [t]) :: s1 :: ss))
            with ((curr ++ [t]) :: removelast (s1 :: ss)).
          constructor; [|exact Hterm].
          exists t. split; [apply last_snoc|exact Ht]. }
      rewrite Hlen. unfold terminators. rewrite filter_cons_True by exact Ht.
      simpl. f_equal. f_equal.
      destruct toks as [|t2 toks'].
      * simpl. rewrite last_snoc, Ht. reflexivity.
      * change (curr ++ t :: t2 :: toks') with (curr ++ [t] ++ t2 :: toks').
        rewrite app_assoc. rewrite !last_app_cons. reflexivity.
    + assert (Hcurr' : Forall inner (curr ++ [t])).
      { apply Forall_app. split; [exact Hcurr|]. constructor; [exact Ht|constructor]. }
      destruct (IH _ Hcurr') as (Hcat & Hcut & Hterm & Hlen).
      rewrite <- !app_assoc in *. simpl in *.
      split; [exact Hcat|]. split; [exact Hcut|]. split; [exact Hterm|].
      rewrite Hlen. unfold terminators.
      rewrite filter_cons_False by (rewrite Ht; discriminate). reflexivity.
Qed.

(** C7: the lists [sentence_stream] yields, concatenated, are the token
    stream; every yielded list is non-empty and holds no terminator
    before its last token; every yielded list but the last ends with a
    terminator; and there is one yielded list per terminator, plus one
    for a trailing run of tokens that no terminator closes. *)
Theorem sentence_stream_partition (toks : list CorrectToken) :
  let sents := sentence_stream toks in
  concat sents = toks /\
  Forall well_cut sents /\
  Forall terminated (removelast sents) /\
  length sents =
    (terminators toks +
     match last toks with
     | Some t => if TOK_END (kind t) then 0 else 1
     | None => 0
     end)%nat.
Proof.
  exact (sentence_stream_from_spec [] toks (Forall_nil_2 _)).
Qed.

End SentenceStreamProperties.

(** ** Sorting annotations *)

Lemma key_le_total (p q : Z * Z) : key_le p q = false -> key_le q p = true.
Proof.
  destruct p as [p1 p2], q as [q1 q2]. unfold key_le. simpl.
  rewrite !orb_false_iff, !andb_false_iff, orb_true_iff, andb_true_iff.
  rewrite !Z.ltb_ge, !Z.ltb_lt, !Z.eqb_neq, !Z.eqb_eq, !Z.leb_gt, Z.leb_le.
  lia.
Qed.

Lemma key_le_trans (p q r : Z * Z) :
  key_le p q = true -> key_le q r = true -> key_le p r = true.
Proof.
  destruct p as [p1 p2], q as [q1 q2], r as [r1 r2]. unfold key_le. simpl.
  rewrite !orb_true_iff, !andb_true_iff.
  rewrite !Z.ltb_lt, !Z.eqb_eq, !Z.leb_le. lia.
Qed.

Lemma key_le_antisym (p q : Z * Z) :
  key_le p q = true -> key_le q p = true -> p = q.
Proof.
  destruct p as [p1 p2], q as [q1 q2]. unfold key_le. simpl.
  rewrite !orb_true_iff, !andb_true_iff.
  rewrite !Z.ltb_lt, !Z.eqb_eq, !Z.leb_le. intros. f_equal; lia.
Qed.

Lemma in_order_flip (reverse : bool) (a b : Annotation) :
  in_order reverse a b = in_order (negb reverse) b a.
Proof. destruct reverse; reflexivity. Qed.

Lemma ordered_total (reverse : bool) (a b : Annotation) :
  in_order reverse a b = false -> ordered reverse b a.
Proof. unfold ordered. destruct reverse; simpl; apply key_le_total. Qed.

#[local] Instance ordered_trans (reverse : bool) : Transitive (ordered reverse).
Proof.
  intros a b c. unfold ordered. destruct reverse; simpl; intros Hab Hbc.
  - exact (key_le_trans _ _ _ Hbc Hab).
  - exact (key_le_trans _ _ _ Hab Hbc).
Qed.

Lemma ordered_same_key (reverse : bool) (a b : Annotation) :
  ordered reverse a b -> ordered reverse b a -> sort_key a = sort_key b.
Proof.
  unfold ordered. destruct reverse; simpl; intros Hab Hba.
  - exact (key_le_antisym _ _ Hba Hab).
  - exact (key_le_antisym _ _ Hab Hba).
Qed.

Lemma insert_sorted_perm (reverse : bool) (a : Annotation) (l : list Annotation) :
  insert_sorted reverse a l ≡ₚ a :: l.
Proof.
  induction l as [|b l IH]; simpl; [reflexivity|].
  destruct (in_order reverse a b); [reflexivity|].
  rewrite IH. apply Permutation_swap.
Qed.

Lemma sorted_perm (reverse : bool) (l : list Annotation) :
  sorted reverse l ≡ₚ l.
Proof.
  induction l as [|a l IH]; simpl; [reflexivity|].
  rewrite insert_sorted_perm. by rewrite IH.
Qed.

Lemma insert_sorted_Sorted (reverse : bool) (a : Annotation) (l : list Annotation) :
  Sorted (ordered reverse) l -> Sorted (ordered reverse) (insert_sorted reverse a l).
Proof.
  induction 1 as [|b l Hl IH Hhd]; simpl.
  - repeat constructor.
  - destruct (in_order reverse a b) eqn:Hab.
    + constructor; [by constructor|]. by constructor.
    + constructor; [exact IH|].
      destruct Hhd as [|c l Hbc]; simpl.
      * constructor. by apply ordered_total.
      * destruct (in_order reverse a c); constructor;
          [by apply ordered_total|exact Hbc].
Qed.

Lemma sorted_Sorted (reverse : bool) (l : list Annotation) :
  Sorted (ordered reverse) (sorted reverse l).
Proof.
  induction l as [|a l IH]; simpl; [constructor|].
  by apply insert_sorted_Sorted.
Qed.

Lemma Sorted_ordered_reverse (rv : bool) (l : list Annotation) :
  Sorted (ordered rv) l -> Sorted (ordered (negb rv)) (reverse l).
Proof.
  intros Hl. apply Sorted_reverse in Hl.
  assert (Hfl : forall a b, flip (ordered rv) a b -> ordered (negb rv) a b).
  { intros a b. unfold flip, ordered.
    by rewrite (in_order_flip (negb rv)), negb_involutive. }
  induction Hl as [|a k Hk IH Hhd]; constructor; [exact IH|].
  destruct Hhd; constructor. by apply Hfl.
Qed.

Lemma NoDup_fmap_inj {A B} (f : A -> B) (l : list A) (a b : A) :
  NoDup (f <$> l) -> a ∈ l -> b ∈ l -> f a = f b -> a = b.
Proof.
  induction l as [|c l IH]; simpl; intros Hnd Ha Hb Hf.
  - by apply elem_of_nil in Ha.
  - apply NoDup_cons in Hnd as [Hc Hnd].
    apply elem_of_cons in Ha as [->|Ha]; apply elem_of_cons in Hb as [->|Hb].
    + reflexivity.
    + exfalso. apply Hc. rewrite Hf. by apply list_elem_of_fmap_2.
    + exfalso. apply Hc. rewrite <- Hf. by apply list_elem_of_fmap_2.
    + by apply IH.
Qed.

(** C5, as the code has it: when no two annotations of the list share a
    [(start, end)] key, sorting ascending and reversing gives the list
    that sorting descending gives. *)
Theorem sorted_reverse_distinct_keys (l : list Annotation) :
  NoDup (sort_key <$> l) ->
  reverse (sorted false l) = sorted true l.
Proof.
  intros Hnd.
  apply (Sorted_unique_strong (ordered true)).
  - intros a b Ha Hb Hab Hba.
    apply (NoDup_fmap_inj sort_key l); [exact Hnd| | |].
    + rewrite elem_of_reverse in Ha. by rewrite sorted_perm in Ha.
    + by rewrite sorted_perm in Hb.
    + by apply (ordered_same_key true).
  - apply (Sorted_ordered_reverse false), sorted_Sorted.
  - apply sorted_Sorted.
  - rewrite reverse_Permutation. by rewrite !sorted_perm.
Qed.

Lemma sorted_reverse_distinct_keys_witness :
  let l := [ann 2 3 "B" None; ann 0 0 "A" None; ann 2 2 "C" None] in
  NoDup (sort_key <$> l) /\ reverse (sorted false l) = sorted true l.
Proof.
  assert (Hnd : NoDup (sort_key <$>
            [ann 2 3 "B" None; ann 0 0 "A" None; ann 2 2 "C" None])).
  { apply (bool_decide_unpack _). vm_compute. exact I. }
  split; [exact Hnd|].
  exact (sorted_reverse_distinct_keys _ Hnd).
Defined.

(** C5 as stated fails at these two annotations, which share their
    key: the descending sort keeps them in their order, the reversal
    swaps them. *)
Lemma sorted_reverse_ties_differ :
  let l := [ann 1 1 "A" None; ann 1 1 "B" None] in
  reverse (sorted false l) <> sorted true l.
Proof. vm_compute. discriminate. Qed.

(** ** Token offsets *)

Lemma tok_len_nonneg (t : CorrectToken) : (0 <= tok_len t)%Z.
Proof. unfold tok_len. lia. Qed.



Lemma total_len_nonneg (l : list CorrectToken) : (0 <= total_len l)%Z.
Proof.
  induction l as [|t l IH]; simpl; [lia|]. pose proof (tok_len_nonneg t). lia.
Qed.


Lemma token_offsets_loop_spec (toklist : list CorrectToken) :
  forall (ix : nat) (m : gmap Z Z) (off : Z),
    (token_offsets_loop ix toklist m off).2 = (off + total_len toklist)%Z /\
    (forall (i : nat) (t : CorrectToken), toklist !! i = Some t ->
       (token_offsets_loop ix toklist m off).1 !! Z.of_nat (ix + i)
         = Some (off + total_len (take i toklist))%Z) /\
    (forall key : Z,
       (key < Z.of_nat ix \/ Z.of_nat (ix + length toklist) <= key)%Z ->
       (token_offsets_loop ix toklist m off).1 !! key = m !! key).
Proof.
  induction toklist as [|t toklist IH]; intros ix m off; simpl.
  - split; [lia|]. split; [|reflexivity]. intros i u Hi. discriminate.
  - destruct (IH (S ix) (<[Z.of_nat ix:=off]> m) (off + tok_len t)%Z)
      as (Hoff & Hin & Hout).
    split; [rewrite Hoff; lia|]. split.
    + intros [|i] u Hi; simpl in Hi.
      * rewrite Hout by lia. rewrite Nat.add_0_r, lookup_insert_eq.
        simpl. f_equal. lia.
      * replace (Z.of_nat (ix + S i)) with (Z.of_nat (S ix + i)) by lia.
        rewrite (Hin i u Hi). simpl. f_equal. lia.
    + intros key Hkey. rewrite Hout by lia.
      apply lookup_insert_ne. lia.
Qed.


Section OffsetProperties.
Context `{Collaborators}.

Lemma processed_cons toklist sents :
  processed (toklist :: sents) =
    match check_tokens toklist with
    | Some _ => toklist ++ processed sents
    | None => processed sents
    end.
Proof.
  unfold processed. rewrite filter_cons.
  destruct (check_tokens toklist) as [sent|]; case_decide as Hd.
  - reflexivity.
  - exfalso. apply Hd. by eexists.
  - by destruct Hd.
  - reflexivity.
Qed.






End OffsetProperties.


(** ** The loop over sentences *)

Lemma string_app_nil_r (s : string) : s +:+ EmptyString = s.
Proof.
  induction s as [|c s IH]; [reflexivity|].
  change (String c (s +:+ EmptyString) = String c s). by rewrite IH.
Qed.

Lemma mapM_result_Forall2 {A B} (f : A -> result B) (R : A -> B -> Prop)
    (l : list A) :
  Forall (fun a => exists b, f a = Ok b /\ R a b) l ->
  exists k, mapM f l = Ok k /\ Forall2 R l k.
Proof.
  induction 1 as [|a l (b & Hb & HR) _ (k & Hk & HF)]; simpl.
  - exists []. split; [reflexivity|constructor].
  - exists (b :: k). rewrite Hb. simpl. rewrite Hk. simpl.
    split; [reflexivity|by constructor].
Qed.

Section LoopProperties.
Context `{Collaborators}.

(** C10: when the checker returns no result for a sentence, the body
    of the loop of [check_grammar] returns normally with the state it
    was given (accumulator, buffered annotation lines and running
    offset), and the loop goes on with the next sentence; the same
    holds for [test_grammar]. *)
Theorem skipped_sentence (options : Options) (toklist : list CorrectToken)
    (rest : list (list CorrectToken)) :
  check_tokens toklist = None ->
  (forall st : GrammarState,
     check_grammar_sentence options st toklist = Ok st /\
     check_grammar_loop options st (toklist :: rest)
       = check_grammar_loop options st rest) /\
  (forall st : TestState,
     test_grammar_sentence options st toklist = Ok st /\
     test_grammar_loop options st (toklist :: rest)
       = test_grammar_loop options st rest).
Proof.
  intros Hnone. split; intros st.
  - assert (Hs : check_grammar_sentence options st toklist = Ok st)
      by (unfold check_grammar_sentence; by rewrite Hnone).
    split; [exact Hs|]. simpl. by rewrite Hs.
  - assert (Hs : test_grammar_sentence options st toklist = Ok st)
      by (unfold test_grammar_sentence; by rewrite Hnone).
    split; [exact Hs|]. simpl. by rewrite Hs.
Qed.

Lemma stored_offset (toklist : list CorrectToken) (off key : Z) :
  (0 <= key < Z.of_nat (length toklist))%Z ->
  exists v, (token_offsets_loop 0 toklist ∅ off).1 !! key = Some v.
Proof.
  intros Hkey.
  destruct (token_offsets_loop_spec toklist 0 ∅ off) as (_ & Hin & _).
  destruct (lookup_lt_is_Some_2 toklist (Z.to_nat key)) as [t Ht]; [lia|].
  specialize (Hin _ _ Ht). simpl in Hin.
  rewrite Z2Nat.id in Hin by lia. eauto.
Qed.

(** What the json format computes, read off the lookups: for a sentence
    the checker returns a result for and whose annotations have a
    [start] among the list positions of [toklist], the record appended
    to the accumulator carries, for every annotation in ascending order,
    a [start_char] equal to the offset stored under the key [start], and
    an [end_char] equal to the offset stored under the key [end + 1]
    minus one when [end + 1] is a list position of [toklist], and to the
    running offset after the sentence minus one otherwise. *)
Theorem json_char_span (options : Options) (st : GrammarState)
    (toklist : list CorrectToken) (sent : CheckedSentence)
    (tokens : list AnnTokenDict) :
  default "json"%string (format options) = "json"%string ->
  check_tokens toklist = Some sent ->
  ann_tokens sent = Ok tokens ->
  Forall (fun ann => (0 <= start ann < Z.of_nat (length toklist))%Z /\
                     (-1 <= end_ ann)%Z) (annotations sent) ->
  let token_offsets := (token_offsets_loop 0 toklist ∅ (offset st)).1 in
  let offset' := (token_offsets_loop 0 toklist ∅ (offset st)).2 in
  exists anns : list AnnDict,
    check_grammar_sentence options st toklist =
      Ok {| accumul :=
              accumul st ++
                [json_dumps {| ard_original := detokenize toklist true;
                               ard_corrected := tidy_text sent;
                               ard_tokens := tokens;
                               ard_annotations := anns |}];
            annlist := annlist st;
            offset := offset' |} /\
    Forall2 (char_span (length toklist) token_offsets offset')
      (sorted false (annotations sent)) anns /\
    Forall2 (fun ann d =>
               (Z.of_nat (length toklist) <= end_ ann + 1)%Z ->
               end_char d = (offset' - 1)%Z)
      (sorted false (annotations sent)) anns.
Proof.
  intros Hfmt Hsent Htokens Hspans token_offsets offset'.
  destruct (mapM_result_Forall2
              (ann_dict (length toklist) token_offsets offset')
              (char_span (length toklist) token_offsets offset')
              (sorted false (annotations sent))) as (anns & Hanns & HF).
  { rewrite sorted_perm. eapply Forall_impl; [exact Hspans|].
    intros ann [Hstart Hend]. unfold ann_dict, char_span.
    destruct (stored_offset toklist (offset st) (start ann) Hstart) as [v Hv].
    unfold getkey. fold token_offsets in Hv. rewrite Hv. simpl.
    destruct (end_ ann + 1 <? Z.of_nat (length toklist))%Z eqn:Hlt.
    - pose proof (proj1 (Z.ltb_lt _ _) Hlt) as Hlt'.
      destruct (stored_offset toklist (offset st) (end_ ann + 1)%Z) as [w Hw];
        [lia|].
      fold token_offsets in Hw. rewrite Hw. simpl.
      eexists. split; [reflexivity|].
      cbn [ad_start ad_end start_char end_char].
      repeat split; try done. f_equal. lia.
    - eexists. split; [reflexivity|].
      cbn [ad_start ad_end start_char end_char]. done. }
  exists anns. split; [|split; [exact HF|]].
  - unfold check_grammar_sentence. rewrite Hsent, Htokens. simpl.
    subst token_offsets offset'.
    destruct (token_offsets_loop 0 toklist ∅ (offset st)) as [m off'].
    rewrite Hfmt. simpl in *. rewrite Hanns. reflexivity.
  - eapply Forall2_impl; [exact HF|].
    intros ann d (_ & _ & _ & Hend) Hlast.
    apply Z.ltb_ge in Hlast. by rewrite Hlast in Hend.
Qed.

(** C3, as the code has it: in the m2 format, for every sentence the
    checker returns a result for, [check_grammar] appends one line made
    of the two characters S and space followed by the normalized
    detokenization of the sentence's token list as it was received
    (the text the json format reports as [original]; no suggestion is
    spliced in), then one line per annotation in ascending
    [(start, end)] order, of the form
    [A <start> <end>|||<code>|||<suggest>|||REQUIRED|||-NONE-|||0],
    then one empty line. *)
Theorem m2_unit (options : Options) (st : GrammarState)
    (toklist : list CorrectToken) (sent : CheckedSentence)
    (tokens : list AnnTokenDict) :
  default "json"%string (format options) = "m2"%string ->
  check_tokens toklist = Some sent ->
  ann_tokens sent = Ok tokens ->
  let a := sorted false (annotations sent) in
  check_grammar_sentence options st toklist =
    Ok {| accumul :=
            accumul st ++ ["S " +:+ detokenize toklist true]
              ++ (m2_line <$> a) ++ [EmptyString];
          annlist := annlist st;
          offset := (token_offsets_loop 0 toklist ∅ (offset st)).2 |} /\
  Sorted (ordered false) a /\ a ≡ₚ annotations sent /\
  forall mann : Annotation,
    m2_line mann =
      "A " +:+ str_int (start mann) +:+ " " +:+ str_int (end_ mann)
      +:+ "|||" +:+ code mann +:+ "|||" +:+ str_opt (suggest mann)
      +:+ "|||REQUIRED|||-NONE-|||0".
Proof.
  intros Hfmt Hsent Htokens a.
  split; [|split; [apply sorted_Sorted|split; [apply sorted_perm|done]]].
  unfold check_grammar_sentence. rewrite Hsent, Htokens. simpl.
  destruct (token_offsets_loop 0 toklist ∅ (offset st)) as [m off'].
  rewrite Hfmt. reflexivity.
Qed.

Lemma check_grammar_sentence_annlist options st toklist st' :
  String.eqb (default "json"%string (format options)) "text" = false ->
  String.eqb (default "json"%string (format options)) "textplustoks" = false ->
  check_grammar_sentence options st toklist = Ok st' ->
  annlist st' = annlist st.
Proof.
  intros Ht Htp. unfold check_grammar_sentence.
  destruct (check_tokens toklist) as [sent|]; [|by intros [= <-]].
  destruct (token_offsets_loop 0 toklist ∅ (offset st)) as [m off'].
  rewrite Ht, Htp. unfold mbind, result_bind. simpl.
  intros Hst. repeat case_match; simplify_eq; reflexivity.
Qed.

Lemma check_grammar_loop_annlist options sents :
  String.eqb (default "json"%string (format options)) "text" = false ->
  String.eqb (default "json"%string (format options)) "textplustoks" = false ->
  forall st st', check_grammar_loop options st sents = Ok st' ->
    annlist st' = annlist st.
Proof.
  intros Ht Htp. induction sents as [|toklist sents IH]; intros st st'; simpl.
  - by intros [= <-].
  - destruct (check_grammar_sentence options st toklist) as [st1|e] eqn:H1;
      simpl; [|discriminate].
    intros Hloop. rewrite (IH _ _ Hloop).
    exact (check_grammar_sentence_annlist _ _ _ _ Ht Htp H1).
Qed.

(** C4, as the code has it: the units of all formats are joined by one
    rule that looks at [print_all] only.  In [check_grammar] the units
    accumulated over the sentences are joined with a single space when
    [print_all] is absent or true and with newlines when it is false,
    the buffered annotation lines following on lines of their own in
    the first case; for the formats other than text, json and csv
    among them, no annotation line is buffered and the result is the
    joined units alone.  In [check_spelling] the same rule applies with
    the default the other way round: newlines when [print_all] is
    absent or false, a single space when it is true. *)
Theorem units_joined_by_print_all (options : Options)
    (toks : list CorrectToken) :
  (forall st : GrammarState,
     check_grammar_loop options
       {| accumul := []; annlist := []; offset := 0 |}
       (sentence_stream toks) = Ok st ->
     check_grammar options toks =
       Ok (if get (print_all options) true then
             join " " (accumul st) +:+
             match annlist st with
             | [] => EmptyString
             | _ :: _ => NL +:+ join NL (annlist st)
             end
           else join NL (accumul st)) /\
     (String.eqb (default "json"%string (format options)) "text" = false ->
      String.eqb (default "json"%string (format options)) "textplustoks"
        = false ->
      check_grammar options toks =
        Ok (join (if get (print_all options) true then " "%string else NL)
              (accumul st)))) /\
  (let st := foldl (check_spelling_sentence options)
               {| unisum := []; s_annlist := [] |} (sentence_stream toks) in
   check_spelling options toks =
     if get (print_all options) false then
       join " " (unisum st) +:+
       match s_annlist st with
       | [] => EmptyString
       | _ :: _ => NL +:+ join NL (s_annlist st)
       end
     else join NL (unisum st)).
Proof.
  split.
  - intros st Hloop. unfold check_grammar. rewrite Hloop. simpl.
    unfold check_grammar_finish. split.
    + destruct (get (print_all options) true); [|reflexivity].
      destruct (annlist st); [|reflexivity].
      by rewrite string_app_nil_r.
    + intros Ht Htp.
      rewrite (check_grammar_loop_annlist _ _ Ht Htp _ _ Hloop). simpl.
      by destruct (get (print_all options) true).
  - simpl. unfold check_spelling, check_spelling_finish.
    destruct (get (print_all options) false); [|reflexivity].
    destruct (s_annlist _); [|reflexivity].
    by rewrite string_app_nil_r.
Qed.

End LoopProperties.

Lemma skipped_sentence_witness :
  let C := example_collaborators [] in
  let options := mkOptions (Some "text"%string) None None None None in
  let st := {| accumul := ["Hi"%string]; annlist := []; offset := 2 |} in
  @check_tokens C [end_tok] = None /\
  @check_grammar_sentence C options st [end_tok] = Ok st.
Proof.
  intros C options st. split; [reflexivity|].
  exact (proj1 (proj1 (@skipped_sentence C options [end_tok] [] eq_refl) st)).
Defined.

Lemma json_char_span_witness :
  let C := example_collaborators [ann 1 2 "X" (Some "there"%string)] in
  let options := mkOptions None None None None None in
  let st := {| accumul := []; annlist := []; offset := 10 |} in
  let toklist := [begin_tok; word "Hi"; word "you"; end_tok] in
  exists anns : list AnnDict,
    @check_grammar_sentence C options st toklist =
      Ok {| accumul := ["Hi you"%string]; annlist := []; offset := 15 |} /\
    Forall2 (char_span 4 (token_offsets_loop 0 toklist ∅ 10).1 15)
      [ann 1 2 "X" (Some "there"%string)] anns.
Proof.
  intros C options st toklist.
  destruct (@json_char_span C options st toklist
              {| tree := None; terminals := None; tokens := toklist;
                 tidy_text := "Hi you";
                 annotations := [ann 1 2 "X" (Some "there"%string)] |}
              ((fun d => {| k := kind d; x := txt d;
                            o := or_ (original d) (txt d) |}) <$> toklist)
              eq_refl eq_refl eq_refl)
    as (anns & Hres & Hspan & _).
  { repeat constructor; simpl; lia. }
  exists anns. split; [exact Hres|exact Hspan].
Defined.

(** C2: the code at a failing input.  The sentence is [Hi you] with
    the tokens begin, [Hi] (characters 0 to 1), [ you] (characters 2 to
    5) and end, and one annotation with [start = end = 1].  Annotation
    indices do not count the begin token, so the annotation is on
    [ you]: the text format writes its suggestion over list position
    [start + 1].  Its span in the original text is 2 to 5, and 5 is the
    running offset after the sentence, 6, minus one.  The json format
    looks the offsets up under [start] and [end + 1] without that shift
    and reports 0 to 1, the span of [Hi], the token before. *)
Lemma json_span_of_previous_token :
  let anns := [ann 1 1 "X" (Some "me"%string)] in
  let C := example_spans anns in
  let toklist := [begin_tok; word "Hi";
                  mkTok WORD (Some "you"%string) (Some " you"%string) None;
                  end_tok] in
  let st := {| accumul := []; annlist := []; offset := 0 |} in
  (token_offsets_loop 0 toklist ∅ 0).1 !! 2%Z = Some 2%Z /\
  (token_offsets_loop 0 toklist ∅ 0).2 = 6%Z /\
  @check_grammar_sentence C
    (mkOptions (Some "text"%string) None None None None) st toklist =
    Ok {| accumul := ["Hi me"%string]; annlist := []; offset := 6 |} /\
  @check_grammar_sentence C
    (mkOptions (Some "json"%string) None None None None) st toklist =
    Ok {| accumul := ["0-1"%string]; annlist := []; offset := 6 |}.
Proof. repeat split; vm_compute; reflexivity. Qed.

(** The record of that sentence: the span runs from the offset stored
    for list position 1 to the one stored for list position 3, less one. *)
Example json_char_span_example :
  let C := example_collaborators [ann 1 2 "X" (Some "there"%string)] in
  let toklist := [begin_tok; word "Hi"; word "you"; end_tok] in
  mapM (ann_dict 4 (token_offsets_loop 0 toklist ∅ 10).1 15)
    [ann 1 2 "X" (Some "there"%string)]
  = Ok [{| ad_start := 1; ad_end := 2; start_char := 10; end_char := 14;
           ad_code := "X"; ad_text := "X"; ad_detail := EmptyString;
           ad_suggest := "there" |}].
Proof. vm_compute. reflexivity. Qed.

Lemma m2_unit_witness :
  let anns := [ann 0 1 "SPELL" (Some "right"%string)] in
  let C := example_collaborators anns in
  let options := mkOptions (Some "m2"%string) None None None None in
  let st := {| accumul := []; annlist := []; offset := 0 |} in
  let toklist := [begin_tok; word "wrong"; word "word"; end_tok] in
  @check_grammar_sentence C options st toklist =
    Ok {| accumul := ["S wrong word"%string;
                      "A 0 1|||SPELL|||right|||REQUIRED|||-NONE-|||0"%string;
                      EmptyString];
          annlist := []; offset := 9 |}.
Proof.
  intros anns C options st toklist.
  exact (proj1 (@m2_unit C options st toklist
                  {| tree := None; terminals := None; tokens := toklist;
                     tidy_text := "wrong word"; annotations := anns |}
                  ((fun d => {| k := kind d; x := txt d;
                                o := or_ (original d) (txt d) |}) <$> toklist)
                  eq_refl eq_refl eq_refl)).
Defined.

(** C3 as stated fails: the text after S is not the corrected sentence.
    For the same sentence and annotation the text format gives the
    corrected text, with the suggestion spliced in, while the m2 format
    puts the uncorrected text on its first line. *)
Lemma m2_source_line_not_corrected :
  let anns := [ann 0 1 "SPELL" (Some "right"%string)] in
  let C := example_collaborators anns in
  let st := {| accumul := []; annlist := []; offset := 0 |} in
  let toklist := [begin_tok; word "wrong"; word "word"; end_tok] in
  @check_grammar_sentence C
    (mkOptions (Some "text"%string) None None None None) st toklist =
    Ok {| accumul := ["right"%string]; annlist := []; offset := 9 |} /\
  @check_grammar_sentence C
    (mkOptions (Some "m2"%string) None None None None) st toklist =
    Ok {| accumul := ["S wrong word"%string;
                      "A 0 1|||SPELL|||right|||REQUIRED|||-NONE-|||0"%string;
                      EmptyString];
          annlist := []; offset := 9 |} /\
  "S wrong word"%string <> ("S " +:+ "right")%string.
Proof.
  split; [vm_compute; reflexivity|].
  split; [vm_compute; reflexivity|]. discriminate.
Qed.

Lemma units_joined_by_print_all_witness :
  let C := example_collaborators [] in
  let options := mkOptions (Some "json"%string) None None None None in
  let toks := [begin_tok; word "a"; end_tok; begin_tok; word "b"; end_tok] in
  let st := {| accumul := ["a"%string; "b"%string]; annlist := [];
               offset := 2 |} in
  @check_grammar_loop C options
    {| accumul := []; annlist := []; offset := 0 |}
    (@sentence_stream C toks) = Ok st /\
  @check_grammar C options toks = Ok (join " " ["a"%string; "b"%string]).
Proof.
  intros C options toks st.
  assert (Hloop : @check_grammar_loop C options
            {| accumul := []; annlist := []; offset := 0 |}
            (@sentence_stream C toks) = Ok st) by (vm_compute; reflexivity).
  split; [exact Hloop|].
  exact (proj2 (proj1 (@units_joined_by_print_all C options toks) st Hloop)
           eq_refl eq_refl).
Defined.

(** C4 as stated fails for json: with the default options
    [check_grammar] joins the records of two sentences with a space, not
    with a newline; and so does [check_spelling] for the csv lines when
    [print_all] is set. *)
Lemma json_units_space_joined :
  let C := example_collaborators [] in
  let toks := [begin_tok; word "a"; end_tok; begin_tok; word "b"; end_tok] in
  @check_grammar C (mkOptions (Some "json"%string) None None None None) toks
    = Ok "a b"%string /\
  @check_grammar C (mkOptions (Some "json"%string) None None None None) toks
    <> Ok (join NL ["a"%string; "b"%string]) /\
  @check_spelling C
    (mkOptions (Some "json"%string) None (Some true) None None) toks
    = "11001: 6:a 11002: 11001: 6:b 11002:"%string.
Proof.
  split; [vm_compute; reflexivity|].
  split; [vm_compute; discriminate|]. vm_compute. reflexivity.
Qed.

(** ** Splicing *)

Lemma deref_alter (f : CorrectToken -> CorrectToken)
    (store : list CorrectToken) (l : list nat) (n a : nat) :
  wf_work store l -> l !! n = Some a ->
  deref (alter f a store) l = alter f n (deref store l).
Proof.
  intros [Hnd Hval] Hn. unfold deref. apply list_eq. intros i.
  rewrite list_lookup_fmap, list_lookup_alter.
  case_decide as Hi; rewrite list_lookup_fmap.
  - subst i. rewrite Hn. simpl. f_equal.
    apply list_lookup_total_alter_eq.
    rewrite Forall_forall in Hval. apply Hval.
    by apply list_elem_of_lookup_2 with n.
  - destruct (l !! i) as [b|] eqn:Hb; simpl; [|reflexivity].
    f_equal. apply list_lookup_total_alter_ne.
    intros ->. apply Hi. by apply (NoDup_lookup l n i b).
Qed.

Lemma take_drop_alter {A} (f : A -> A) (v : list A) :
  forall (n e : nat) (tok : A),
    v !! n = Some tok -> (S n <= e)%nat ->
    take (S n) (alter f n v) ++ drop e (alter f n v)
      = take n v ++ f tok :: drop e v.
Proof.
  induction v as [|x v IH]; intros n e tok Hn He; [discriminate|].
  destruct e as [|e]; [lia|].
  destruct n as [|n]; simpl in *.
  - injection Hn as ->. reflexivity.
  - f_equal. apply IH; [exact Hn|lia].
Qed.







Lemma splice_loop_cons (st : list CorrectToken * list nat)
    (xann : Annotation) (rest : list Annotation) :
  splice_loop st (xann :: rest) =
    match splice_step st xann with
    | Ok st' => splice_loop st' rest
    | Raise e => Raise e
    end.
Proof. reflexivity. Qed.


Lemma deref_seq (toklist : list CorrectToken) :
  deref toklist (seq 0 (length toklist)) = toklist.
Proof.
  unfold deref. apply list_eq. intros i. rewrite list_lookup_fmap.
  destruct (decide (i < length toklist)%nat) as [Hi|Hi].
  - rewrite lookup_seq_lt by exact Hi. simpl.
    destruct (lookup_lt_is_Some_2 toklist i Hi) as [t Ht].
    rewrite Ht. f_equal. by apply list_lookup_total_correct.
  - rewrite lookup_seq_ge by lia. simpl. symmetry.
    apply lookup_ge_None. lia.
Qed.



(** The pass on that sentence: the three spanned tokens collapse into
    the first, which holds the whole suggestion. *)
Example splice_example :
  let toklist := [begin_tok; word "Leita"; word "ad"; word "kilometer";
                  word "af"; word "feinu"; end_tok] in
  let a := [ann 0 0 "S" (Some "leita"%string);
            ann 2 4 "P" (Some "kilometra af fenu"%string)] in
  working_copy <$> splice toklist a =
    Ok [begin_tok;
        mkTok WORD (Some "leita"%string) (Some "Leita"%string) None;
        word "ad";
        mkTok WORD (Some "kilometra af fenu"%string)
          (Some "kilometer"%string) None;
        end_tok].
Proof. vm_compute. reflexivity. Qed.

Lemma del_slice_clamped {A} (l : list A) (s e : Z) :
  (0 <= s)%Z -> (s + 1 < Z.of_nat (length l))%Z ->
  (if (s <? e)%Z then del_slice l (s + 2) (e + 2) else l)
    = take (S (Z.to_nat (s + 1))) l
      ++ drop (if (s <? e)%Z
               then Z.to_nat (Z.min (e + 2) (Z.of_nat (length l)))
               else Z.to_nat (s + 2)) l.
Proof.
  intros Hs Hlen. destruct (s <? e)%Z eqn:Hlt.
  - apply Z.ltb_lt in Hlt. unfold del_slice, clamp.
    destruct (s + 2 <? 0)%Z eqn:H1; [apply Z.ltb_lt in H1; lia|].
    destruct (e + 2 <? 0)%Z eqn:H2; [apply Z.ltb_lt in H2; lia|].
    rewrite (Z.min_l (s + 2)) by lia.
    replace (Z.to_nat (s + 2)) with (S (Z.to_nat (s + 1))) by lia.
    destruct (S (Z.to_nat (s + 1))
              <? Z.to_nat (Z.min (e + 2) (Z.of_nat (length l))))%nat eqn:H3;
      [reflexivity|].
    apply Nat.ltb_ge in H3.
    replace (Z.to_nat (Z.min (e + 2) (Z.of_nat (length l))))
      with (S (Z.to_nat (s + 1))) by lia.
    by rewrite take_drop.
  - replace (Z.to_nat (s + 2)) with (S (Z.to_nat (s + 1))) by lia.
    by rewrite take_drop.
Qed.

(** C6, as the code has it: an annotation whose [suggest] is absent
    leaves the store and the working copy as they are; an annotation
    that carries a [suggest], the empty string included, gives that text
    to the token at list position [start + 1] of the working copy,
    whose kind, original and error stay, and, when [end > start],
    deletes the list positions [start + 2] up to but excluding
    [end + 2], as far as the list goes; the other tokens of the working
    copy stay as they are. *)
Theorem splice_step_frame (store : list CorrectToken) (l : list nat)
    (xann : Annotation) :
  (suggest xann = None -> splice_step (store, l) xann = Ok (store, l)) /\
  (forall s : string,
     suggest xann = Some s ->
     wf_work store l ->
     (0 <= start xann)%Z -> (start xann + 1 < Z.of_nat (length l))%Z ->
     exists st' tok,
       splice_step (store, l) xann = Ok st' /\
       working_copy (store, l) !! Z.to_nat (start xann + 1) = Some tok /\
       working_copy st' =
         take (Z.to_nat (start xann + 1)) (working_copy (store, l))
         ++ {| kind := kind tok; txt := Some s;
               original := original tok; error := error tok |}
         :: drop (if (start xann <? end_ xann)%Z
                  then Z.to_nat (Z.min (end_ xann + 2)
                                   (Z.of_nat (length l)))
                  else Z.to_nat (start xann + 2))
              (working_copy (store, l))).
Proof.
  unfold splice_step. split.
  - by intros ->.
  - intros s Hsug Hwf H0 Hlt. rewrite Hsug.
    set (n := Z.to_nat (start xann + 1)).
    destruct (lookup_lt_is_Some_2 l n) as [a Ha]; [lia|].
    assert (Hget : getitem l (start xann + 1) = Ok a).
    { unfold getitem, Py.index.
      destruct ((0 <=? start xann + 1)
                && (start xann + 1 <? Z.of_nat (length l)))%Z eqn:Hin.
      - fold n. by rewrite Ha.
      - apply andb_false_iff in Hin as [Hin|Hin];
          [apply Z.leb_gt in Hin|apply Z.ltb_ge in Hin]; lia. }
    rewrite Hget. simpl.
    rewrite (del_slice_clamped l _ _ H0 Hlt). fold n.
    set (b := if (start xann <? end_ xann)%Z
              then Z.to_nat (Z.min (end_ xann + 2) (Z.of_nat (length l)))
              else Z.to_nat (start xann + 2)).
    assert (Hb : (S n <= b)%nat).
    { subst b n. destruct (start xann <? end_ xann)%Z eqn:Hse; [|lia].
      apply Z.ltb_lt in Hse. lia. }
    assert (Htok : deref store l !! n = Some (store !!! a)).
    { unfold deref. by rewrite list_lookup_fmap, Ha. }
    eexists _, (store !!! a). split; [reflexivity|].
    unfold working_copy. simpl. split; [exact Htok|].
    unfold deref at 1. rewrite fmap_app, fmap_take, fmap_drop.
    fold (deref (alter (set_txt (Some s)) a store) l).
    rewrite (deref_alter _ _ _ n a Hwf Ha).
    exact (take_drop_alter (set_txt (Some s)) (deref store l) n b
             (store !!! a) Htok Hb).
Qed.

Lemma splice_step_frame_witness :
  let store := [begin_tok; word "a"; word "b"; end_tok] in
  let xann := ann 0 1 "X" (Some EmptyString) in
  wf_work store (seq 0 4) /\
  exists st',
    splice_step (store, seq 0 4) xann = Ok st' /\
    working_copy st' =
      [begin_tok;
       {| kind := WORD; txt := Some EmptyString;
          original := Some "a"%string; error := None |};
       end_tok].
Proof.
  intros store xann.
  assert (Hwf : wf_work store (seq 0 4)).
  { split; [apply NoDup_seq|]. repeat constructor. }
  split; [exact Hwf|].
  destruct (proj2 (splice_step_frame store (seq 0 4) xann) EmptyString
              eq_refl Hwf)
    as (st' & tok & Hstep & Htok & Hv); [simpl; lia..|].
  exists st'. split; [exact Hstep|].
  cbn in Htok. injection Htok as <-. exact Hv.
Defined.

(** C6 as stated fails for an empty [suggest]: the token's text is
    overwritten with the empty string, and with a span of two tokens the
    second one is deleted. *)
Lemma empty_suggest_modifies :
  let store := [begin_tok; word "a"; word "b"; end_tok] in
  let xann := ann 0 1 "X" (Some EmptyString) in
  working_copy <$> splice_step (store, seq 0 4) xann =
    Ok [begin_tok; mkTok WORD (Some EmptyString) (Some "a"%string) None;
        end_tok] /\
  working_copy <$> splice_step (store, seq 0 4) xann
    <> Ok (working_copy (store, seq 0 4)).
Proof. split; [vm_compute; reflexivity|vm_compute; discriminate]. Qed.

(** [test_grammar] returns the token objects of the sentence with the
    texts the splicing pass wrote, and none of them deleted. *)
Example test_grammar_alltoks :
  let C := example_collaborators [ann 0 1 "SPELL" (Some "right"%string)] in
  @test_grammar C (mkOptions None None None None None)
    [begin_tok; word "wrong"; word "word"; end_tok]
  = Ok ("right"%string,
        [begin_tok;
         mkTok WORD (Some "right"%string) (Some "wrong"%string) None;
         word "word"; end_tok]).
Proof. vm_compute. reflexivity. Qed.

(** * Further properties *)

(** ** quote *)

Lemma string_length_app (s1 s2 : string) :
  String.length (s1 +:+ s2) = (String.length s1 + String.length s2)%nat.
Proof.
  induction s1 as [|c s1 IH]; [reflexivity|].
  change (S (String.length (s1 +:+ s2))
          = S (String.length s1 + String.length s2)).
  by rewrite IH.
Qed.

Lemma quote_Some (s : string) :
  quote (Some s) = String DQ (escape s +:+ String DQ EmptyString).
Proof. destruct s; reflexivity. Qed.

Lemma unquote_quote (s : string) : unquote (quote (Some s)) = Some s.
Proof.
  rewrite quote_Some. unfold unquote.
  change (Ascii.eqb DQ DQ) with true. cbv iota.
  apply unquote_body_escape.
Qed.

Lemma escape_length (s : string) :
  String.length (escape s) = (String.length s + escaped s)%nat.
Proof.
  induction s as [|c s IH]; [reflexivity|].
  rewrite escape_cons. simpl escaped.
  destruct (Ascii.eqb c BS); simpl; [rewrite IH; lia|].
  destruct (Ascii.eqb c DQ); simpl; rewrite IH; lia.
Qed.

(** X1: [quote] loses nothing of a string: two strings with the same
    quoted form are the same string. *)
Theorem quote_injective (s s' : string) :
  quote (Some s) = quote (Some s') -> s = s'.
Proof.
  intros Heq. apply (f_equal unquote) in Heq.
  rewrite !unquote_quote in Heq. by injection Heq.
Qed.

Lemma quote_injective_witness :
  quote (Some "a b"%string) = quote (Some "a b"%string) /\
  "a b"%string = "a b"%string.
Proof.
  split; [reflexivity|].
  exact (quote_injective "a b" "a b" eq_refl).
Defined.

(** X2: the quoted form of a string is longer than the string by the two
    enclosing quotes and by one backslash for every backslash or double
    quote in it. *)
Theorem quote_length (s : string) :
  String.length (quote (Some s))
    = (2 + String.length s + escaped s)%nat.
Proof.
  rewrite quote_Some. simpl String.length.
  rewrite string_length_app, escape_length. simpl. lia.
Qed.

(** ** sentence_stream *)

Section SentenceStreamMore.
Context `{Collaborators}.

Lemma sentence_stream_from_app (a b : list CorrectToken) :
  forall curr : list CorrectToken,
    a <> [] ->
    (forall t, last a = Some t -> TOK_END (kind t) = true) ->
    sentence_stream_from curr (a ++ b)
      = sentence_stream_from curr a ++ sentence_stream_from [] b.
Proof.
  induction a as [|t a IH]; intros curr Hne Hlast; [congruence|].
  destruct a as [|u a].
  - simpl. rewrite (Hlast t eq_refl). reflexivity.
  - assert (Hlast' : forall z, last (u :: a) = Some z -> TOK_END (kind z) = true).
    { intros z Hz. apply Hlast. by rewrite last_cons_cons. }
    change (sentence_stream_from curr ((t :: u :: a) ++ b))
      with (let curr_sent := curr ++ [t] in
            if TOK_END (kind t)
            then curr_sent :: sentence_stream_from [] ((u :: a) ++ b)
            else sentence_stream_from curr_sent ((u :: a) ++ b)).
    change (sentence_stream_from curr (t :: u :: a))
      with (let curr_sent := curr ++ [t] in
            if TOK_END (kind t)
            then curr_sent :: sentence_stream_from [] (u :: a)
            else sentence_stream_from curr_sent (u :: a)).
    cbv zeta. destruct (TOK_END (kind t)).
    + rewrite (IH [] ltac:(discriminate) Hlast'). reflexivity.
    + exact (IH _ ltac:(discriminate) Hlast').
Qed.

(** X3: segmentation works piece by piece: when a first part of the
    token stream ends with a terminator (or is empty), the sentences of
    the whole stream are the sentences of that part followed by the
    sentences of the rest. *)
Theorem sentence_stream_app (a b : list CorrectToken) :
  (forall t, last a = Some t -> TOK_END (kind t) = true) ->
  sentence_stream (a ++ b) = sentence_stream a ++ sentence_stream b.
Proof.
  intros Hlast. destruct a as [|t a]; [reflexivity|].
  by apply sentence_stream_from_app.
Qed.

Lemma well_cut_fixed (s : list CorrectToken) :
  well_cut s -> sentence_stream s = [s].
Proof.
  intros [Hne Hin]. destruct (exists_last Hne) as [l' [z ->]].
  rewrite removelast_last in Hin. unfold sentence_stream.
  destruct (TOK_END (kind z)) eqn:Hz.
  - rewrite (sentence_stream_from_terminator [] l' z [] Hin Hz). reflexivity.
  - rewrite sentence_stream_from_inner.
    + simpl. destruct l'; reflexivity.
    + apply Forall_app. split; [exact Hin|]. by repeat constructor.
Qed.

(** X4: a yielded sentence is a sentence of its own: segmenting any list
    that [sentence_stream] yields gives that list back as the only
    sentence. *)
Theorem sentence_stream_fixed (toks s : list CorrectToken) :
  s ∈ sentence_stream toks -> sentence_stream s = [s].
Proof.
  intros Hs. apply well_cut_fixed.
  destruct (sentence_stream_from_spec [] toks (Forall_nil_2 _))
    as (_ & Hcut & _).
  rewrite Forall_forall in Hcut. by apply Hcut.
Qed.

End SentenceStreamMore.

Lemma sentence_stream_app_witness :
  let C := example_collaborators [] in
  let a := [begin_tok; word "a"; end_tok] in
  let b := [begin_tok; word "b"] in
  (forall t, last a = Some t -> @TOK_END C (kind t) = true) /\
  @sentence_stream C (a ++ b) = [a; b].
Proof.
  intros C a b.
  assert (Hlast : forall t, last a = Some t -> @TOK_END C (kind t) = true).
  { intros t [= <-]. reflexivity. }
  split; [exact Hlast|].
  exact (@sentence_stream_app C a b Hlast).
Defined.

Lemma sentence_stream_fixed_witness :
  let C := example_collaborators [] in
  let toks := [begin_tok; word "a"; end_tok; begin_tok; word "b"] in
  let s := [begin_tok; word "b"] in
  s ∈ @sentence_stream C toks /\ @sentence_stream C s = [s].
Proof.
  intros C toks s.
  assert (Hs : s ∈ @sentence_stream C toks).
  { apply list_elem_of_here || (right; left). }
  split; [exact Hs|].
  exact (@sentence_stream_fixed C toks s Hs).
Defined.

(** ** Sorting annotations *)

Lemma key_le_refl (p : Z * Z) : key_le p p = true.
Proof.
  destruct p as [p1 p2]. unfold key_le. simpl.
  rewrite Z.eqb_refl, Z.leb_refl. by rewrite orb_true_r.
Qed.

Lemma in_order_same_key (rv : bool) (a b : Annotation) :
  sort_key a = sort_key b -> in_order rv a b = true.
Proof.
  intros Hk. unfold in_order. rewrite Hk. destruct rv; apply key_le_refl.
Qed.

Lemma insert_sorted_filter (rv : bool) (a : Annotation)
    (l : list Annotation) (key : Z * Z) :
  filter (fun x => sort_key x = key) (insert_sorted rv a l)
    = filter (fun x => sort_key x = key) (a :: l).
Proof.
  induction l as [|b l IH]; [reflexivity|]. simpl.
  destruct (in_order rv a b) eqn:Hab; [reflexivity|].
  assert (Hne : sort_key a <> sort_key b).
  { intros Hk. by rewrite (in_order_same_key rv a b Hk) in Hab. }
  rewrite (filter_cons _ b), IH, !filter_cons.
  repeat case_decide; congruence.
Qed.

Lemma sorted_filter (rv : bool) (l : list Annotation) (key : Z * Z) :
  filter (fun x => sort_key x = key) (sorted rv l)
    = filter (fun x => sort_key x = key) l.
Proof.
  induction l as [|a l IH]; [reflexivity|]. simpl.
  rewrite insert_sorted_filter, !filter_cons, IH. reflexivity.
Qed.

Lemma stable_unique (rv : bool) (l1 : list Annotation) :
  forall l2 : list Annotation,
    StronglySorted (ordered rv) l1 -> StronglySorted (ordered rv) l2 ->
    (forall key, filter (fun x => sort_key x = key) l1
                 = filter (fun x => sort_key x = key) l2) ->
    l1 = l2.
Proof.
  induction l1 as [|x l1 IH]; intros l2 H1 H2 Hf.
  - destruct l2 as [|y l2]; [reflexivity|].
    specialize (Hf (sort_key y)). by rewrite filter_cons_True in Hf.
  - destruct l2 as [|y l2].
    { specialize (Hf (sort_key x)). by rewrite filter_cons_True in Hf. }
    apply StronglySorted_cons in H1 as [Hx H1].
    apply StronglySorted_cons in H2 as [Hy H2].
    rewrite Forall_forall in Hx, Hy.
    assert (Hk : sort_key y = sort_key x).
    { destruct (decide (sort_key y = sort_key x)) as [|Hne]; [done|].
      pose proof (Hf (sort_key x)) as Hfx.
      rewrite filter_cons_True, filter_cons_False in Hfx by done.
      pose proof (Hf (sort_key y)) as Hfy.
      rewrite filter_cons_False, filter_cons_True in Hfy by done.
      assert (Hxin : x ∈ l2).
      { eapply (proj1 (list_elem_of_filter _ _ _)). rewrite <- Hfx. left. }
      assert (Hyin : y ∈ l1).
      { eapply (proj1 (list_elem_of_filter _ _ _)). rewrite Hfy. left. }
      symmetry. apply (ordered_same_key rv); [by apply Hx|by apply Hy]. }
    pose proof (Hf (sort_key x)) as Hfx.
    rewrite !filter_cons_True in Hfx by done.
    injection Hfx as -> Hfx. f_equal. apply IH; [done..|].
    intros key. destruct (decide (sort_key y = key)) as [<-|Hne]; [done|].
    specialize (Hf key). by rewrite !filter_cons_False in Hf.
Qed.

Lemma sorted_StronglySorted (rv : bool) (l : list Annotation) :
  StronglySorted (ordered rv) (sorted rv l).
Proof.
  apply Sorted_StronglySorted; [apply ordered_trans|apply sorted_Sorted].
Qed.

(** X5: both sort calls are stable sorts: the result holds the same
    annotations, is in the requested order of [(start, end)], and keeps
    the annotations that share a key in the order they had. *)
Theorem sorted_stable (rv : bool) (l : list Annotation) :
  sorted rv l ≡ₚ l /\
  Sorted (ordered rv) (sorted rv l) /\
  forall key : Z * Z,
    filter (fun x => sort_key x = key) (sorted rv l)
      = filter (fun x => sort_key x = key) l.
Proof.
  split; [apply sorted_perm|]. split; [apply sorted_Sorted|].
  apply sorted_filter.
Qed.

(** X6: an earlier sort does not show in a later one: sorting a list
    that was sorted before, in either direction, gives what sorting the
    list as it was gives.  So [arev], computed from the list sorted in
    place, is the descending sort of the checker's list, and sorting
    twice changes nothing. *)
Theorem sorted_after_sorted (rv rv' : bool) (l : list Annotation) :
  sorted rv (sorted rv' l) = sorted rv l.
Proof.
  apply (stable_unique rv); [apply sorted_StronglySorted..|].
  intros key. by rewrite !sorted_filter.
Qed.

(** X7: the descending sort is the ascending sort taken between two
    reversals, which is how a stable sort with reversed comparisons can
    be had from the ascending one. *)
Theorem sorted_reverse_flag (l : list Annotation) :
  sorted true l = reverse (sorted false (reverse l)).
Proof.
  apply (stable_unique true).
  - apply sorted_StronglySorted.
  - apply Sorted_StronglySorted; [apply ordered_trans|].
    apply (Sorted_ordered_reverse false), sorted_Sorted.
  - intros key.
    by rewrite sorted_filter, filter_reverse, sorted_filter, filter_reverse,
      reverse_involutive.
Qed.

(** ** Offsets and the errors of the lookups *)

(** X8: the offsets dictionary of a sentence has exactly the list
    positions of the sentence as its keys: looking up any other integer,
    a negative one included, finds nothing. *)
Theorem token_offsets_keys (toklist : list CorrectToken) (off key : Z) :
  is_Some ((token_offsets_loop 0 toklist ∅ off).1 !! key)
  <-> (0 <= key < Z.of_nat (length toklist))%Z.
Proof.
  split.
  - intros [v Hv].
    destruct (decide (0 <= key < Z.of_nat (length toklist))%Z) as [|Hout];
      [done|].
    destruct (token_offsets_loop_spec toklist 0 ∅ off) as (_ & _ & Hkeep).
    rewrite Hkeep in Hv by (simpl; lia). by rewrite lookup_empty in Hv.
  - intros Hkey. destruct (stored_offset toklist off key Hkey) as [v Hv].
    by exists v.
Qed.

Lemma ann_dict_cases (toklist : list CorrectToken) (off off' : Z)
    (ann : Annotation) :
  let token_offsets := (token_offsets_loop 0 toklist ∅ off).1 in
  (off_sentence (length toklist) ann /\
   ann_dict (length toklist) token_offsets off' ann = Raise KeyError) \/
  (~ off_sentence (length toklist) ann /\
   exists d, ann_dict (length toklist) token_offsets off' ann = Ok d).
Proof.
  intros token_offsets. unfold ann_dict, getkey, off_sentence.
  destruct (decide (0 <= start ann < Z.of_nat (length toklist))%Z)
    as [Hs|Hs].
  - destruct (proj2 (token_offsets_keys toklist off (start ann)) Hs)
      as [v Hv].
    fold token_offsets in Hv. rewrite Hv. simpl.
    destruct (end_ ann + 1 <? Z.of_nat (length toklist))%Z eqn:Hlt.
    + apply Z.ltb_lt in Hlt.
      destruct (decide (0 <= end_ ann + 1)%Z) as [He|He].
      * destruct (proj2 (token_offsets_keys toklist off (end_ ann + 1)%Z))
          as [w Hw]; [lia|].
        fold token_offsets in Hw. rewrite Hw. simpl.
        right. split; [lia|]. by eexists.
      * destruct (token_offsets !! (end_ ann + 1)%Z) as [w|] eqn:Hw.
        { assert (Hsome : is_Some ((token_offsets_loop 0 toklist ∅ off).1
                                     !! (end_ ann + 1)%Z)) by (by exists w).
          apply token_offsets_keys in Hsome. lia. }
        simpl. left. split; [right; lia|reflexivity].
    + apply Z.ltb_ge in Hlt. simpl. right. split; [lia|]. by eexists.
  - left. split; [by left|].
    destruct (token_offsets !! start ann) as [v|] eqn:Hv; [|reflexivity].
    assert (Hsome : is_Some ((token_offsets_loop 0 toklist ∅ off).1
                               !! start ann)) by (by exists v).
    apply token_offsets_keys in Hsome. lia.
Qed.

Lemma mapM_result_cases {A B} (f : A -> result B) (bad : A -> Prop)
    (e : exn) (l : list A) :
  (forall a, a ∈ l ->
     (bad a /\ f a = Raise e) \/ (~ bad a /\ exists b, f a = Ok b)) ->
  (Exists bad l /\ mapM f l = Raise e) \/
  (Forall (fun a => ~ bad a) l /\ exists k, mapM f l = Ok k).
Proof.
  induction l as [|a l IH]; intros Hcases.
  - right. split; [constructor|]. by exists [].
  - destruct (Hcases a) as [[Hbad Hf]|[Hgood [b Hf]]]; [left|..].
    + left. split; [by left|]. simpl. by rewrite Hf.
    + destruct IH as [[Hex Hm]|[Hall [k Hm]]].
      * intros a' Ha'. apply Hcases. by right.
      * left. split; [by right|]. simpl. rewrite Hf. simpl. by rewrite Hm.
      * right. split; [by constructor|]. exists (b :: k). simpl.
        rewrite Hf. simpl. by rewrite Hm.
Qed.

Section ErrorProperties.
Context `{Collaborators}.

(** X9: in the json format a sentence raises [KeyError] exactly when
    one of its annotations has a [start] that is not a list position of
    the sentence, or an [end] below minus one: the offsets are looked up
    in a dictionary, so an index from the end is no way out. *)
Theorem json_key_error (options : Options) (st : GrammarState)
    (toklist : list CorrectToken) (sent : CheckedSentence)
    (tokens : list AnnTokenDict) :
  default "json"%string (format options) = "json"%string ->
  check_tokens toklist = Some sent ->
  ann_tokens sent = Ok tokens ->
  (check_grammar_sentence options st toklist = Raise KeyError
   <-> Exists (off_sentence (length toklist)) (annotations sent)) /\
  (forall e, check_grammar_sentence options st toklist = Raise e ->
             e = KeyError).
Proof.
  intros Hfmt Hsent Htokens.
  unfold check_grammar_sentence. rewrite Hsent, Htokens. simpl.
  pose proof (fun off' ann =>
                ann_dict_cases toklist (offset st) off' ann) as Hcases.
  destruct (token_offsets_loop 0 toklist ∅ (offset st)) as [m off'].
  simpl in Hcases. rewrite Hfmt. simpl.
  destruct (mapM_result_cases (ann_dict (length toklist) m off')
              (off_sentence (length toklist)) KeyError
              (sorted false (annotations sent))) as [[Hex Hm]|[Hall [k Hm]]].
  { intros a _. apply Hcases. }
  - rewrite Hm. simpl. split.
    + split; [intros _|done]. by rewrite <- (sorted_perm false).
    + by intros e [= <-].
  - rewrite Hm. simpl. split; [|done]. split; [done|].
    intros Hex. exfalso. rewrite <- (sorted_perm false) in Hex.
    apply Exists_exists in Hex as (a & Ha & Hbad).
    rewrite Forall_forall in Hall. by apply (Hall a).
Qed.

End ErrorProperties.

Lemma json_key_error_witness :
  let C := example_collaborators [ann (-1) 0 "X" None] in
  let options := mkOptions None None None None None in
  let st := {| accumul := []; annlist := []; offset := 0 |} in
  let toklist := [begin_tok; word "Hi"; end_tok] in
  @check_grammar_sentence C options st toklist = Raise KeyError.
Proof.
  intros C options st toklist.
  apply (proj1 (@json_key_error C options st toklist
                  {| tree := None; terminals := None; tokens := toklist;
                     tidy_text := "Hi";
                     annotations := [ann (-1) 0 "X" None] |}
                  ((fun d => {| k := kind d; x := txt d;
                                o := or_ (original d) (txt d) |}) <$> toklist)
                  eq_refl eq_refl eq_refl)).
  left. left. simpl. lia.
Defined.

Lemma getitem_cases {A} (l : list A) (i : Z) :
  ((- Z.of_nat (length l) <= i < Z.of_nat (length l))%Z /\
   exists a, getitem l i = Ok a) \/
  (~ (- Z.of_nat (length l) <= i < Z.of_nat (length l))%Z /\
   getitem l i = Raise IndexError).
Proof.
  unfold getitem, Py.index.
  destruct ((0 <=? i) && (i <? Z.of_nat (length l)))%Z eqn:Hpos.
  - apply andb_true_iff in Hpos as [H0 H1].
    apply Z.leb_le in H0. apply Z.ltb_lt in H1.
    destruct (lookup_lt_is_Some_2 l (Z.to_nat i)) as [a Ha]; [lia|].
    rewrite Ha. left. split; [lia|by exists a].
  - destruct ((i <? 0) && (- Z.of_nat (length l) <=? i))%Z eqn:Hneg.
    + apply andb_true_iff in Hneg as [H0 H1].
      apply Z.ltb_lt in H0. apply Z.leb_le in H1.
      destruct (lookup_lt_is_Some_2 l (Z.to_nat (i + Z.of_nat (length l))))
        as [a Ha]; [lia|].
      rewrite Ha. left. split; [lia|by exists a].
    + right. split; [|reflexivity].
      apply andb_false_iff in Hpos. apply andb_false_iff in Hneg.
      rewrite Z.leb_gt, Z.ltb_ge in Hpos. rewrite Z.ltb_ge, Z.leb_gt in Hneg.
      lia.
Qed.

(** X10: one step of the splicing pass can fail in one way only: it
    raises [IndexError], and does so exactly when the annotation carries
    a suggestion and [start + 1] is no index of the working copy,
    counted from the front or, when negative, from the end. *)
Theorem splice_step_error (store : list CorrectToken) (l : list nat)
    (xann : Annotation) (e : exn) :
  splice_step (store, l) xann = Raise e
  <-> e = IndexError /\ suggest xann <> None /\
      ~ (- Z.of_nat (length l) <= start xann + 1 < Z.of_nat (length l))%Z.
Proof.
  unfold splice_step. destruct (suggest xann) as [s|].
  - destruct (getitem_cases l (start xann + 1)) as [[Hin [a Ha]]|[Hout Hr]].
    + rewrite Ha. simpl. split; [done|]. by intros (_ & _ & Hno).
    + rewrite Hr. simpl. split.
      * by intros [= <-].
      * by intros (-> & _ & _).
  - split; [done|]. by intros (_ & Hs & _).
Qed.

(** ** What splicing keeps *)

Lemma same_but_txt_refl (l : list CorrectToken) : Forall2 same_but_txt l l.
Proof. induction l; constructor; [by repeat split|done]. Qed.

Lemma del_slice_sublist {A} (l : list A) (lo hi : Z) :
  del_slice l lo hi `sublist_of` l.
Proof.
  unfold del_slice.
  destruct (clamp (length l) lo <? clamp (length l) hi)%nat eqn:Hlt;
    [|reflexivity].
  apply Nat.ltb_lt in Hlt.
  set (a := clamp (length l) lo) in *. set (b := clamp (length l) hi) in *.
  rewrite <- (take_drop a l) at 3. apply sublist_app; [reflexivity|].
  replace b with (a + (b - a))%nat by lia.
  rewrite <- drop_drop. apply sublist_drop.
Qed.

Lemma splice_step_keeps (store : list CorrectToken) (l : list nat)
    (xann : Annotation) (store' : list CorrectToken) (l' : list nat) :
  splice_step (store, l) xann = Ok (store', l') ->
  Forall2 same_but_txt store store' /\ l' `sublist_of` l.
Proof.
  unfold splice_step. destruct (suggest xann) as [s|].
  - destruct (getitem l (start xann + 1)) as [a|e]; simpl; [|discriminate].
    intros [= <- <-]. split.
    + apply Forall2_alter_r; [apply same_but_txt_refl|].
      intros t t' _ _ Hs. exact Hs.
    + destruct (start xann <? end_ xann)%Z;
        [apply del_slice_sublist|reflexivity].
  - intros [= <- <-]. split; [apply same_but_txt_refl|reflexivity].
Qed.

Lemma splice_loop_keeps (arev : list Annotation) :
  forall (store : list CorrectToken) (l : list nat)
         (store' : list CorrectToken) (l' : list nat),
    splice_loop (store, l) arev = Ok (store', l') ->
    Forall2 same_but_txt store store' /\ l' `sublist_of` l.
Proof.
  induction arev as [|xann arev IH]; intros store l store' l'.
  - intros [= <- <-]. split; [apply same_but_txt_refl|reflexivity].
  - rewrite splice_loop_cons.
    destruct (splice_step (store, l) xann) as [[store1 l1]|e] eqn:Hstep;
      [|discriminate].
    intros Hloop.
    destruct (splice_step_keeps _ _ _ _ _ Hstep) as [Hs1 Hl1].
    destruct (IH _ _ _ _ Hloop) as [Hs2 Hl2]. split.
    + eapply Forall2_trans; [|exact Hs1|exact Hs2].
      intros t1 t2 t3 (Hk1 & Ho1 & He1) (Hk2 & Ho2 & He2).
      repeat split; congruence.
    + by transitivity l1.
Qed.

(** X11: whatever the annotations are, a splicing pass that returns has
    changed nothing but texts: the sentence still has all its token
    objects, in place, each with the kind, the original text and the
    error it had. *)
Theorem splice_keeps_tokens (toklist : list CorrectToken)
    (a : list Annotation) (st : list CorrectToken * list nat) :
  splice toklist a = Ok st ->
  Forall2 same_but_txt toklist st.1.
Proof.
  destruct st as [store l]. unfold splice. intros Hloop.
  exact (proj1 (splice_loop_keeps _ _ _ _ _ Hloop)).
Qed.

(** X12: whatever the annotations are, the working copy a splicing pass
    returns lists tokens of the sentence in their original order, none
    of them twice: it is never longer than the sentence, and a token
    once deleted does not come back. *)
Theorem splice_working_copy_sublist (toklist : list CorrectToken)
    (a : list Annotation) (st : list CorrectToken * list nat) :
  splice toklist a = Ok st ->
  st.2 `sublist_of` seq 0 (length toklist) /\
  NoDup st.2 /\
  (length (working_copy st) <= length toklist)%nat.
Proof.
  destruct st as [store l]. unfold splice. intros Hloop.
  destruct (splice_loop_keeps _ _ _ _ _ Hloop) as [_ Hsub]. simpl.
  split; [exact Hsub|]. split.
  - eapply sublist_NoDup; [apply NoDup_seq|exact Hsub].
  - unfold working_copy, deref. simpl. rewrite length_fmap.
    apply sublist_length in Hsub. by rewrite length_seq in Hsub.
Qed.

Lemma splice_keeps_tokens_witness :
  let toklist := [begin_tok; word "a"; word "b"; end_tok] in
  let a := [ann 0 5 "X" (Some "c"%string); ann 0 0 "Y" (Some "d"%string)] in
  let st := ([begin_tok; mkTok WORD (Some "d"%string) (Some "a"%string) None;
              word "b"; end_tok], [0; 1]%nat) in
  splice toklist a = Ok st /\ Forall2 same_but_txt toklist st.1.
Proof.
  intros toklist a st.
  assert (Hs : splice toklist a = Ok st) by (vm_compute; reflexivity).
  split; [exact Hs|]. exact (splice_keeps_tokens toklist a st Hs).
Defined.

Lemma splice_working_copy_sublist_witness :
  let toklist := [begin_tok; word "a"; word "b"; end_tok] in
  let a := [ann 0 5 "X" (Some "c"%string); ann 0 0 "Y" (Some "d"%string)] in
  let st := ([begin_tok; mkTok WORD (Some "d"%string) (Some "a"%string) None;
              word "b"; end_tok], [0; 1]%nat) in
  splice toklist a = Ok st /\
  st.2 `sublist_of` seq 0 (length toklist).
Proof.
  intros toklist a st.
  assert (Hs : splice toklist a = Ok st) by (vm_compute; reflexivity).
  split; [exact Hs|].
  exact (proj1 (splice_working_copy_sublist toklist a st Hs)).
Defined.

(** ** The loop of check_grammar *)

Section GrammarMore.
Context `{Collaborators}.

Lemma ann_tokens_given (sent : CheckedSentence) :
  terminals_given sent -> exists tokens, ann_tokens sent = Ok tokens.
Proof.
  unfold ann_tokens. intros [Htree|Hterm].
  - rewrite Htree. by eexists.
  - destruct (tree sent); [|by eexists].
    destruct (terminals sent); [by eexists|done].
Qed.

(** X13: a checked sentence that has a parse tree but no terminals makes
    the loop of [check_grammar] raise [AssertionError], in every format
    and before anything of the sentence is written. *)
Theorem tree_without_terminals (options : Options) (st : GrammarState)
    (toklist : list CorrectToken) (sent : CheckedSentence)
    (rest : list (list CorrectToken)) :
  check_tokens toklist = Some sent ->
  tree sent <> None -> terminals sent = None ->
  check_grammar_sentence options st toklist = Raise AssertionError /\
  check_grammar_loop options st (toklist :: rest) = Raise AssertionError.
Proof.
  intros Hsent Htree Hterm.
  assert (Hs : check_grammar_sentence options st toklist
               = Raise AssertionError).
  { unfold check_grammar_sentence, ann_tokens. rewrite Hsent, Hterm.
    by destruct (tree sent). }
  split; [exact Hs|]. simpl. by rewrite Hs.
Qed.

Lemma unknown_format_sentence (options : Options) (st : GrammarState)
    (toklist : list CorrectToken) :
  unknown_format (default "json"%string (format options)) ->
  (forall sent, check_tokens toklist = Some sent -> terminals_given sent) ->
  exists st',
    check_grammar_sentence options st toklist = Ok st' /\
    accumul st' = accumul st /\ annlist st' = annlist st.
Proof.
  intros (Ht & Htp & Hj & Hc & Hm) Hgiven. unfold check_grammar_sentence.
  destruct (check_tokens toklist) as [sent|]; [|by exists st].
  destruct (ann_tokens_given sent (Hgiven sent eq_refl)) as [tokens ->].
  simpl. destruct (token_offsets_loop 0 toklist ∅ (offset st)) as [m off'].
  rewrite Ht, Htp, Hj, Hc, Hm. simpl. by eexists.
Qed.

(** X14: for a format [check_grammar] does not know, the result is the
    empty string whatever the text is, provided every parsed sentence
    comes with its terminals; nothing is raised for the format. *)
Theorem unknown_format_empty (options : Options) (toks : list CorrectToken) :
  unknown_format (default "json"%string (format options)) ->
  (forall toklist sent,
     check_tokens toklist = Some sent -> terminals_given sent) ->
  check_grammar options toks = Ok EmptyString.
Proof.
  intros Hfmt Hgiven. unfold check_grammar.
  assert (Hloop : forall sents st, exists st',
            check_grammar_loop options st sents = Ok st' /\
            accumul st' = accumul st /\ annlist st' = annlist st).
  { induction sents as [|toklist sents IH]; intros st; [by exists st|].
    destruct (unknown_format_sentence options st toklist Hfmt (Hgiven toklist))
      as (st1 & Hs & Ha & Hl).
    destruct (IH st1) as (st2 & Hs2 & Ha2 & Hl2).
    exists st2. simpl. rewrite Hs. simpl. split; [exact Hs2|].
    split; congruence. }
  destruct (Hloop (sentence_stream toks)
              {| accumul := []; annlist := []; offset := 0 |})
    as (st' & -> & Ha & Hl).
  simpl. unfold check_grammar_finish. rewrite Ha, Hl. simpl.
  by destruct (get (print_all options) true).
Qed.

(** X15: the number of entries one checked sentence adds to the
    accumulator depends on the format: one text, one json record, one
    csv line per annotation (none for a sentence without annotations),
    and for m2 the sentence line, one line per annotation and the empty
    line. *)
Theorem units_per_sentence (options : Options) (st st' : GrammarState)
    (toklist : list CorrectToken) (sent : CheckedSentence) :
  check_tokens toklist = Some sent ->
  check_grammar_sentence options st toklist = Ok st' ->
  length (accumul st') =
    (length (accumul st)
     + units_of (default "json"%string (format options))
         (length (annotations sent)))%nat.
Proof.
  intros Hsent. unfold check_grammar_sentence, units_of. rewrite Hsent.
  assert (Hlen : length (sorted false (annotations sent))
                 = length (annotations sent))
    by (apply Permutation_length, sorted_perm).
  destruct (ann_tokens sent) as [tokens|e]; simpl; [|discriminate].
  destruct (token_offsets_loop 0 toklist ∅ (offset st)) as [m off'].
  destruct (String.eqb (default "json"%string (format options)) "text"
            || String.eqb (default "json"%string (format options))
                 "textplustoks").
  { destruct (splice toklist (sorted false (annotations sent)))
      as [[store l]|e]; simpl; [|discriminate].
    destruct (echo_annotations _ _ _ _) as [txt annl].
    intros [= <-]. simpl. rewrite length_app. simpl. lia. }
  destruct (String.eqb (default "json"%string (format options)) "json").
  { destruct (mapM _ _) as [anns|e]; simpl; [|discriminate].
    intros [= <-]. simpl. rewrite length_app. simpl. lia. }
  destruct (String.eqb (default "json"%string (format options)) "csv").
  { intros [= <-]. simpl. rewrite length_app, length_fmap, Hlen. lia. }
  destruct (String.eqb (default "json"%string (format options)) "m2").
  { intros [= <-]. simpl.
    rewrite length_app. simpl. rewrite length_app, length_fmap, Hlen.
    simpl. lia. }
  intros [= <-]. simpl. lia.
Qed.

End GrammarMore.

Lemma tree_without_terminals_witness :
  let sent := {| tree := Some tt; terminals := None; tokens := [];
                 tidy_text := EmptyString; annotations := [] |} in
  let C := example_with_result sent in
  @check_grammar_sentence C (mkOptions (Some "m2"%string) None None None None)
    {| accumul := []; annlist := []; offset := 0 |} [begin_tok; end_tok]
  = Raise AssertionError.
Proof.
  intros sent C.
  assert (Htree : tree sent <> None) by done.
  exact (proj1 (@tree_without_terminals C
                  (mkOptions (Some "m2"%string) None None None None)
                  {| accumul := []; annlist := []; offset := 0 |}
                  [begin_tok; end_tok] sent [] eq_refl Htree eq_refl)).
Defined.

Lemma unknown_format_empty_witness :
  let C := example_collaborators [ann 0 0 "X" None] in
  @check_grammar C (mkOptions (Some "xml"%string) None None None None)
    [begin_tok; word "a"; end_tok] = Ok EmptyString.
Proof.
  intros C. apply (@unknown_format_empty C).
  - by repeat split.
  - intros toklist sent Hsent. left.
    destruct toklist as [|t1 [|t2 toklist]]; simpl in Hsent; try discriminate.
    by injection Hsent as <-.
Defined.

Lemma units_per_sentence_witness :
  let anns := [ann 0 0 "X" None; ann 1 1 "Y" None] in
  let C := example_collaborators anns in
  let toklist := [begin_tok; word "a"; word "b"; end_tok] in
  let st := {| accumul := []; annlist := []; offset := 0 |} in
  let st' := {| accumul := ["X,None,None,0,0,None"%string;
                            "Y,None,None,1,1,None"%string];
                annlist := []; offset := 2 |} in
  @check_grammar_sentence C (mkOptions (Some "csv"%string) None None None None)
    st toklist = Ok st' /\
  length (accumul st') = 2%nat.
Proof.
  intros anns C toklist st st'.
  assert (Hs : @check_grammar_sentence C
                 (mkOptions (Some "csv"%string) None None None None)
                 st toklist = Ok st') by (vm_compute; reflexivity).
  split; [exact Hs|].
  exact (@units_per_sentence C _ st st' toklist
           {| tree := None; terminals := None; tokens := toklist;
              tidy_text := "a b"; annotations := anns |} eq_refl Hs).
Defined.

(** ** Annotation lines in the text format *)

Section EchoProperties.
Context `{Collaborators}.

Lemma echo_annotations_flushed (options : Options) (txt : string)
    (new : list string) :
  get (print_all options) false = false ->
  (echo_annotations options txt [] new).2 = [].
Proof.
  intros Hpa. unfold echo_annotations.
  destruct (get (annotations_opt options) false); [|reflexivity].
  simpl. destruct new; [reflexivity|]. by rewrite Hpa.
Qed.

Lemma check_grammar_sentence_flushed options st toklist st' :
  get (print_all options) false = false ->
  annlist st = [] ->
  check_grammar_sentence options st toklist = Ok st' ->
  annlist st' = [].
Proof.
  intros Hpa Hnil. unfold check_grammar_sentence.
  destruct (check_tokens toklist) as [sent|]; [|by intros [= <-]].
  destruct (ann_tokens sent) as [tokens|e]; simpl; [|discriminate].
  destruct (token_offsets_loop 0 toklist ∅ (offset st)) as [m off'].
  destruct (String.eqb _ "text" || String.eqb _ "textplustoks").
  { destruct (splice toklist _) as [[store l]|e]; simpl; [|discriminate].
    rewrite Hnil.
    pose proof (echo_annotations_flushed options
                  (detokenize (deref store l) true)
                  (Annotation_str <$> sorted false (annotations sent)) Hpa)
      as Hfl.
    destruct (echo_annotations _ _ _ _) as [txt annl]. simpl in Hfl.
    by intros [= <-]. }
  unfold mbind, result_bind.
  intros Hst. repeat case_match; simplify_eq; exact Hnil.
Qed.

(** X16: unless [print_all] is set to true, no annotation line is ever
    left in the buffer of [check_grammar]: each sentence's lines go
    beneath its own text, and the result is the accumulated entries
    joined, by single spaces when [print_all] is absent and by newlines
    when it is false, with nothing after them. *)
Theorem annotations_beneath_sentences (options : Options)
    (toks : list CorrectToken) (st : GrammarState) :
  get (print_all options) false = false ->
  check_grammar_loop options
    {| accumul := []; annlist := []; offset := 0 |}
    (sentence_stream toks) = Ok st ->
  annlist st = [] /\
  check_grammar options toks =
    Ok (join (if get (print_all options) true then " "%string else NL)
          (accumul st)).
Proof.
  intros Hpa Hloop.
  assert (Hinv : forall sents st0 st1,
            annlist st0 = [] ->
            check_grammar_loop options st0 sents = Ok st1 ->
            annlist st1 = []).
  { induction sents as [|toklist sents IH]; intros st0 st1 Hnil; simpl.
    - by intros [= <-].
    - destruct (check_grammar_sentence options st0 toklist) as [st2|e] eqn:Hs;
        simpl; [|discriminate].
      apply IH. exact (check_grammar_sentence_flushed _ _ _ _ Hpa Hnil Hs). }
  assert (Hnil : annlist st = []) by (by eapply Hinv; [|exact Hloop]).
  split; [exact Hnil|].
  unfold check_grammar. rewrite Hloop. simpl.
  unfold check_grammar_finish. rewrite Hnil.
  by destruct (get (print_all options) true).
Qed.

Lemma annotation_lines_cons toklist sents :
  annotation_lines (toklist :: sents) =
    match check_tokens toklist with
    | Some sent => Annotation_str <$> sorted false (annotations sent)
    | None => []
    end ++ annotation_lines sents.
Proof. reflexivity. Qed.

Lemma check_grammar_sentence_buffered options st toklist st' :
  String.eqb (default "json"%string (format options)) "text"
  || String.eqb (default "json"%string (format options)) "textplustoks"
    = true ->
  get (annotations_opt options) false = true ->
  get (print_all options) false = true ->
  check_grammar_sentence options st toklist = Ok st' ->
  annlist st' = annlist st ++ annotation_lines [toklist].
Proof.
  intros Hfmt Hann Hpa. rewrite annotation_lines_cons.
  change (annotation_lines []) with (@nil string). rewrite app_nil_r.
  unfold check_grammar_sentence.
  destruct (check_tokens toklist) as [sent|];
    [|intros [= <-]; by rewrite app_nil_r].
  destruct (ann_tokens sent) as [tokens|e]; simpl; [|discriminate].
  destruct (token_offsets_loop 0 toklist ∅ (offset st)) as [m off'].
  rewrite Hfmt.
  destruct (splice toklist _) as [[store l]|e]; simpl; [|discriminate].
  unfold echo_annotations. rewrite Hann, Hpa. simpl.
  destruct (annlist st ++ _); by intros [= <-].
Qed.

(** X17: with the text format, annotation echoing and [print_all] all
    on, the texts alone are accumulated and the buffer ends up holding
    the annotation lines of the whole document, sentence by sentence and
    ascending within each sentence; the result puts them after the
    space-joined texts. *)
Theorem annotations_at_end (options : Options) (toks : list CorrectToken)
    (st : GrammarState) :
  String.eqb (default "json"%string (format options)) "text"
  || String.eqb (default "json"%string (format options)) "textplustoks"
    = true ->
  get (annotations_opt options) false = true ->
  print_all options = Some true ->
  check_grammar_loop options
    {| accumul := []; annlist := []; offset := 0 |}
    (sentence_stream toks) = Ok st ->
  annlist st = annotation_lines (sentence_stream toks) /\
  check_grammar options toks =
    Ok (join " " (accumul st) +:+
        match annotation_lines (sentence_stream toks) with
        | [] => EmptyString
        | _ :: _ => NL +:+ join NL (annotation_lines (sentence_stream toks))
        end).
Proof.
  intros Hfmt Hann Hpa Hloop.
  assert (Hpa' : get (print_all options) false = true) by (by rewrite Hpa).
  assert (Hinv : forall sents st0 st1,
            check_grammar_loop options st0 sents = Ok st1 ->
            annlist st1 = annlist st0 ++ annotation_lines sents).
  { induction sents as [|toklist sents IH]; intros st0 st1.
    - intros [= <-]. change (annotation_lines []) with (@nil string).
      by rewrite app_nil_r.
    - simpl check_grammar_loop.
      destruct (check_grammar_sentence options st0 toklist) as [st2|e] eqn:Hs;
        [|discriminate].
      intros Hrest. apply IH in Hrest. rewrite Hrest.
      rewrite (check_grammar_sentence_buffered _ _ _ _ Hfmt Hann Hpa' Hs).
      rewrite (annotation_lines_cons toklist sents),
        (annotation_lines_cons toklist []).
      change (annotation_lines []) with (@nil string).
      by rewrite app_nil_r, <- app_assoc. }
  pose proof (Hinv _ _ _ Hloop) as Hlines. simpl in Hlines.
  split; [exact Hlines|].
  unfold check_grammar. rewrite Hloop. simpl.
  unfold check_grammar_finish. rewrite Hpa. simpl. rewrite Hlines.
  destruct (annotation_lines (sentence_stream toks)); [|reflexivity].
  by rewrite string_app_nil_r.
Qed.

End EchoProperties.

Lemma annotations_beneath_sentences_witness :
  let C := example_collaborators [ann 0 0 "X" None] in
  let options := mkOptions (Some "text"%string) (Some true) None None None in
  let toks := [begin_tok; word "a"; end_tok; begin_tok; word "b"; end_tok] in
  let st := {| accumul := ["a" +:+ NL +:+ "X"; "b" +:+ NL +:+ "X"]%string;
               annlist := []; offset := 2 |} in
  @check_grammar_loop C options
    {| accumul := []; annlist := []; offset := 0 |}
    (@sentence_stream C toks) = Ok st /\
  @check_grammar C options toks
    = Ok (join " " ["a" +:+ NL +:+ "X"; "b" +:+ NL +:+ "X"]%string).
Proof.
  intros C options toks st.
  assert (Hloop : @check_grammar_loop C options
            {| accumul := []; annlist := []; offset := 0 |}
            (@sentence_stream C toks) = Ok st) by (vm_compute; reflexivity).
  split; [exact Hloop|].
  exact (proj2 (@annotations_beneath_sentences C options toks st
                  eq_refl Hloop)).
Defined.

Lemma annotations_at_end_witness :
  let C := example_collaborators [ann 0 0 "X" None] in
  let options :=
    mkOptions (Some "text"%string) (Some true) (Some true) None None in
  let toks := [begin_tok; word "a"; end_tok; begin_tok; word "b"; end_tok] in
  let st := {| accumul := ["a"; "b"]%string;
               annlist := ["X"; "X"]%string; offset := 2 |} in
  @check_grammar_loop C options
    {| accumul := []; annlist := []; offset := 0 |}
    (@sentence_stream C toks) = Ok st /\
  annlist st = @annotation_lines C (@sentence_stream C toks).
Proof.
  intros C options toks st.
  assert (Hloop : @check_grammar_loop C options
            {| accumul := []; annlist := []; offset := 0 |}
            (@sentence_stream C toks) = Ok st) by (vm_compute; reflexivity).
  split; [exact Hloop|].
  exact (proj1 (@annotations_at_end C options toks st
                  eq_refl eq_refl eq_refl Hloop)).
Defined.

(** ** test_grammar *)

Section TestGrammarProperties.
Context `{Collaborators}.

Lemma test_grammar_sentence_agrees options st st' tst toklist :
  String.eqb (default "json"%string (format options)) "text"
  || String.eqb (default "json"%string (format options)) "textplustoks"
    = true ->
  t_accumul tst = accumul st -> t_annlist tst = annlist st ->
  t_offset tst = offset st ->
  check_grammar_sentence options st toklist = Ok st' ->
  exists tst',
    test_grammar_sentence options tst toklist = Ok tst' /\
    t_accumul tst' = accumul st' /\ t_annlist tst' = annlist st' /\
    t_offset tst' = offset st'.
Proof.
  intros Hfmt Ha Hl Ho. unfold check_grammar_sentence, test_grammar_sentence.
  destruct (check_tokens toklist) as [sent|];
    [|intros [= <-]; by exists tst].
  destruct (ann_tokens sent) as [tokens|e]; simpl; [|discriminate].
  rewrite Ho, Hl, Ha.
  destruct (token_offsets_loop 0 toklist ∅ (offset st)) as [m off'].
  rewrite Hfmt.
  destruct (splice toklist _) as [[store l]|e]; simpl; [|discriminate].
  destruct (echo_annotations _ _ _ _) as [txt annl].
  intros [= <-]. by eexists.
Qed.

Lemma test_grammar_loop_agrees options sents :
  String.eqb (default "json"%string (format options)) "text"
  || String.eqb (default "json"%string (format options)) "textplustoks"
    = true ->
  forall st st' tst,
    t_accumul tst = accumul st -> t_annlist tst = annlist st ->
    t_offset tst = offset st ->
    check_grammar_loop options st sents = Ok st' ->
    exists tst',
      test_grammar_loop options tst sents = Ok tst' /\
      t_accumul tst' = accumul st'.
Proof.
  intros Hfmt. induction sents as [|toklist sents IH];
    intros st st' tst Ha Hl Ho.
  - intros [= <-]. by exists tst.
  - simpl check_grammar_loop. simpl test_grammar_loop.
    destruct (check_grammar_sentence options st toklist) as [st1|e] eqn:Hs;
      [|discriminate].
    destruct (test_grammar_sentence_agrees _ _ _ tst _ Hfmt Ha Hl Ho Hs)
      as (tst1 & -> & Ha1 & Hl1 & Ho1).
    apply (IH st1 st' tst1 Ha1 Hl1 Ho1).
Qed.

(** X18: [test_grammar] gives the text of [check_grammar]: whenever
    [check_grammar] returns a string in the text format with [print_all]
    set to false, [test_grammar] with the same options returns that
    string as the first part of its result. *)
Theorem test_grammar_text (options : Options) (toks : list CorrectToken)
    (s : string) :
  String.eqb (default "json"%string (format options)) "text"
  || String.eqb (default "json"%string (format options)) "textplustoks"
    = true ->
  print_all options = Some false ->
  check_grammar options toks = Ok s ->
  exists all, test_grammar options toks = Ok (s, all).
Proof.
  intros Hfmt Hpa. unfold check_grammar, test_grammar.
  destruct (check_grammar_loop options _ (sentence_stream toks))
    as [st|e] eqn:Hloop; simpl; [|discriminate].
  unfold check_grammar_finish. rewrite Hpa. simpl. intros [= <-].
  destruct (test_grammar_loop_agrees options (sentence_stream toks) Hfmt
              {| accumul := []; annlist := []; offset := 0 |}
              st {| t_accumul := []; t_annlist := []; t_offset := 0;
                      alltoks := [] |} eq_refl eq_refl eq_refl Hloop)
    as (tst & -> & Ha).
  simpl. rewrite Ha. by eexists.
Qed.

Lemma test_grammar_sentence_alltoks options tst tst' toklist :
  test_grammar_sentence options tst toklist = Ok tst' ->
  exists store,
    alltoks tst' = alltoks tst ++ store /\
    Forall2 same_but_txt (processed [toklist]) store.
Proof.
  unfold test_grammar_sentence. rewrite (processed_cons toklist []).
  change (processed []) with (@nil CorrectToken).
  destruct (check_tokens toklist) as [sent|].
  2:{ intros [= <-]. exists []. split; [by rewrite app_nil_r|constructor]. }
  destruct (token_offsets_loop 0 toklist ∅ (t_offset tst)) as [m off'].
  destruct (splice toklist _) as [[store l]|e] eqn:Hsp; simpl; [|discriminate].
  destruct (echo_annotations _ _ _ _) as [txt annl].
  intros [= <-]. simpl.
  pose proof (proj1 (splice_loop_keeps _ _ _ _ _ Hsp)) as Hkeep.
  exists store. split.
  - f_equal. rewrite (Forall2_length _ _ _ Hkeep). apply deref_seq.
  - by rewrite app_nil_r.
Qed.

(** X19: the token list [test_grammar] returns holds every token of the
    sentences the checker gave a result for, in document order, none
    deleted and none added, each with its kind, original text and error;
    only texts may differ, where a suggestion was written. *)
Theorem test_grammar_alltoks_kept (options : Options)
    (toks : list CorrectToken) (s : string) (all : list CorrectToken) :
  test_grammar options toks = Ok (s, all) ->
  Forall2 same_but_txt (processed (sentence_stream toks)) all.
Proof.
  unfold test_grammar.
  destruct (test_grammar_loop options _ (sentence_stream toks))
    as [tst|e] eqn:Hloop; simpl; [|discriminate].
  intros [= _ <-].
  assert (Hinv : forall sents tst0 tst1 before,
            Forall2 same_but_txt before (alltoks tst0) ->
            test_grammar_loop options tst0 sents = Ok tst1 ->
            Forall2 same_but_txt (before ++ processed sents) (alltoks tst1)).
  { induction sents as [|toklist sents IH]; intros tst0 tst1 before Hb.
    - intros [= <-]. change (processed []) with (@nil CorrectToken).
      by rewrite app_nil_r.
    - simpl test_grammar_loop.
      destruct (test_grammar_sentence options tst0 toklist)
        as [tst2|e] eqn:Hs; [|discriminate].
      intros Hrest.
      destruct (test_grammar_sentence_alltoks _ _ _ _ Hs)
        as (store & Hall & Hkeep).
      rewrite (processed_cons toklist []) in Hkeep.
      change (processed []) with (@nil CorrectToken) in Hkeep.
      rewrite processed_cons.
      destruct (check_tokens toklist) as [sent|].
      + rewrite app_nil_r in Hkeep. rewrite app_assoc.
        apply (IH tst2 tst1); [|exact Hrest].
        rewrite Hall. by apply Forall2_app.
      + inversion Hkeep; subst. rewrite app_nil_r in Hall.
        apply (IH tst2 tst1); [|exact Hrest]. by rewrite Hall. }
  exact (Hinv (sentence_stream toks)
           {| t_accumul := []; t_annlist := []; t_offset := 0; alltoks := [] |}
           tst [] (Forall2_nil_2 _ _ same_but_txt) Hloop).
Qed.

End TestGrammarProperties.

Lemma test_grammar_text_witness :
  let C := example_collaborators [ann 0 1 "SPELL" (Some "right"%string)] in
  let options :=
    mkOptions (Some "text"%string) None (Some false) None None in
  let toks := [begin_tok; word "wrong"; word "word"; end_tok] in
  @check_grammar C options toks = Ok "right"%string /\
  exists all, @test_grammar C options toks = Ok ("right"%string, all).
Proof.
  intros C options toks.
  assert (Hc : @check_grammar C options toks = Ok "right"%string)
    by (vm_compute; reflexivity).
  split; [exact Hc|].
  exact (@test_grammar_text C options toks "right" eq_refl eq_refl Hc).
Defined.

Lemma test_grammar_alltoks_kept_witness :
  let C := example_collaborators [ann 0 1 "SPELL" (Some "right"%string)] in
  let options := mkOptions None None None None None in
  let toks := [begin_tok; word "wrong"; word "word"; end_tok] in
  let all := [begin_tok;
              mkTok WORD (Some "right"%string) (Some "wrong"%string) None;
              word "word"; end_tok] in
  @test_grammar C options toks = Ok ("right"%string, all) /\
  Forall2 same_but_txt (@processed C (@sentence_stream C toks)) all.
Proof.
  intros C options toks all.
  assert (Ht : @test_grammar C options toks = Ok ("right"%string, all))
    by (vm_compute; reflexivity).
  split; [exact Ht|].
  exact (@test_grammar_alltoks_kept C options toks "right" all Ht).
Defined.

(** ** check_spelling, test_spelling and check_errors *)

Section SpellingProperties.
Context `{Collaborators}.

Lemma sentence_stream_concat (toks : list CorrectToken) :
  concat (sentence_stream toks) = toks.
Proof.
  exact (proj1 (sentence_stream_from_spec [] toks (Forall_nil_2 _))).
Qed.

Lemma foldl_check_spelling_lines options sents :
  String.eqb (default "json"%string (format options)) "text" = false ->
  forall st,
    foldl (check_spelling_sentence options) st sents =
      {| unisum :=
           unisum st ++
           (concat sents
              ≫= spelling_token_lines (default "json"%string (format options)));
         s_annlist := s_annlist st |}.
Proof.
  intros Hfmt. induction sents as [|toklist sents IH]; intros st.
  - simpl. rewrite app_nil_r. by destruct st.
  - simpl foldl. rewrite IH. unfold check_spelling_sentence at 1 2.
    rewrite Hfmt. simpl. by rewrite bind_app, app_assoc.
Qed.

Lemma check_spelling_by_token options toks :
  String.eqb (default "json"%string (format options)) "text" = false ->
  check_spelling options toks =
    join (if get (print_all options) false then " "%string else NL)
      (toks ≫= spelling_token_lines (default "json"%string (format options))).
Proof.
  intros Hfmt. unfold check_spelling.
  rewrite (foldl_check_spelling_lines options _ Hfmt).
  rewrite sentence_stream_concat. unfold check_spelling_finish. simpl.
  by destruct (get (print_all options) false).
Qed.

(** X20: outside the text format [check_spelling] works token by token:
    its result is the lines of the tokens of the input (one json line
    per token; for csv a line per token with text and the marker line
    per end-of-sentence token without text), in stream order, joined by
    newlines, or by single spaces when [print_all] is true.  How the
    stream is cut into sentences does not show. *)
Theorem spelling_lines_per_token (options : Options)
    (toks : list CorrectToken) :
  String.eqb (default "json"%string (format options)) "text" = false ->
  check_spelling options toks =
    join (if get (print_all options) false then " "%string else NL)
      (toks ≫= spelling_token_lines (default "json"%string (format options))).
Proof. apply check_spelling_by_token. Qed.

(** X21: [check_spelling] writes nothing for a format other than text,
    csv and json, m2 among them: its result is the empty string, and so
    is the result of [check_errors] when [all_errors] is false. *)
Theorem spelling_unknown_format (options : Options)
    (toks : list CorrectToken) :
  String.eqb (default "json"%string (format options)) "text" = false ->
  String.eqb (default "json"%string (format options)) "csv" = false ->
  String.eqb (default "json"%string (format options)) "json" = false ->
  check_spelling options toks = EmptyString /\
  check_errors (Some false) options toks = Ok EmptyString.
Proof.
  intros Ht Hc Hj.
  assert (Hs : check_spelling options toks = EmptyString).
  { rewrite (check_spelling_by_token options toks Ht).
    assert (Hnil : toks ≫= spelling_token_lines
                            (default "json"%string (format options)) = []).
    { induction toks as [|t toks IH]; [reflexivity|].
      change ((t :: toks) ≫= ?f) with (f t ++ (toks ≫= f)).
      rewrite IH. unfold spelling_token_lines. by rewrite Hc, Hj. }
    rewrite Hnil. by destruct (get (print_all options) false). }
  split; [exact Hs|]. unfold check_errors. simpl. by rewrite Hs.
Qed.

Lemma foldl_test_spelling options sents :
  forall st,
    ts_unisum (foldl (test_spelling_sentence options) st sents)
      = ts_unisum st ++ (to_text options <$> sents) /\
    toksum (foldl (test_spelling_sentence options) st sents)
      = toksum st ++
        if get (print_all options) false
        then SumToken <$> concat sents
        else SumTokens <$> sents.
Proof.
  induction sents as [|toklist sents IH]; intros st.
  - simpl. destruct (get (print_all options) false); simpl;
      by rewrite !app_nil_r.
  - simpl foldl. destruct (IH (test_spelling_sentence options st toklist))
      as [Hu Ht].
    rewrite Hu, Ht. unfold test_spelling_sentence. simpl.
    split; [by rewrite <- app_assoc|].
    destruct (get (print_all options) false).
    + by rewrite fmap_app, app_assoc.
    + by rewrite <- app_assoc.
Qed.

Lemma flatten_tokens (l : list CorrectToken) : flatten (SumToken <$> l) = l.
Proof. induction l as [|t l IH]; [reflexivity|]. simpl. by f_equal. Qed.

Lemma flatten_sentences (sents : list (list CorrectToken)) :
  flatten (SumTokens <$> sents) = concat sents.
Proof. induction sents as [|s sents IH]; [reflexivity|]. simpl. by f_equal. Qed.

(** X22: [test_spelling] hands back the tokens it was given: its token
    list is the input stream token by token when [print_all] is true and
    sentence by sentence otherwise, and either way its tokens, in order,
    are the input stream, nothing dropped at a sentence boundary. *)
Theorem test_spelling_tokens (options : Options) (toks : list CorrectToken) :
  (test_spelling options toks).2 =
    (if get (print_all options) false
     then SumToken <$> toks
     else SumTokens <$> sentence_stream toks) /\
  flatten (test_spelling options toks).2 = toks.
Proof.
  unfold test_spelling. cbn [snd].
  destruct (foldl_test_spelling options (sentence_stream toks)
              {| ts_unisum := []; toksum := [] |}) as [_ Ht].
  rewrite Ht. simpl. rewrite sentence_stream_concat.
  split; [reflexivity|].
  destruct (get (print_all options) false).
  - apply flatten_tokens.
  - rewrite flatten_sentences. apply sentence_stream_concat.
Qed.

Lemma foldl_check_spelling_text options sents :
  String.eqb (default "json"%string (format options)) "text" = true ->
  get (annotations_opt options) false = false ->
  forall st,
    foldl (check_spelling_sentence options) st sents =
      {| unisum := unisum st ++ (to_text options <$> sents);
         s_annlist := s_annlist st |}.
Proof.
  intros Hfmt Hann. induction sents as [|toklist sents IH]; intros st.
  - simpl. rewrite app_nil_r. by destruct st.
  - simpl foldl. rewrite IH. unfold check_spelling_sentence at 1 2.
    rewrite Hfmt. unfold echo_annotations. rewrite Hann. simpl.
    by rewrite <- app_assoc.
Qed.

(** X23: in the text format without annotation echoing [check_spelling]
    and [test_spelling] build the same string: one text per sentence,
    made by the same detokenizer choice and joined the same way. *)
Theorem test_spelling_text (options : Options) (toks : list CorrectToken) :
  String.eqb (default "json"%string (format options)) "text" = true ->
  get (annotations_opt options) false = false ->
  check_spelling options toks = (test_spelling options toks).1 /\
  check_spelling options toks =
    join (if get (print_all options) false then " "%string else NL)
      (to_text options <$> sentence_stream toks).
Proof.
  intros Hfmt Hann. unfold check_spelling, test_spelling. cbn [fst].
  rewrite (foldl_check_spelling_text options _ Hfmt Hann).
  destruct (foldl_test_spelling options (sentence_stream toks)
              {| ts_unisum := []; toksum := [] |}) as [Hu _].
  rewrite Hu. unfold check_spelling_finish. simpl.
  by destruct (get (print_all options) false).
Qed.

End SpellingProperties.

Lemma spelling_lines_per_token_witness :
  let C := example_collaborators [] in
  let options := mkOptions (Some "json"%string) None None None None in
  let toks := [begin_tok; word "a"; end_tok; word "b"] in
  @check_spelling C options toks
    = join NL ["11001:"; "6:a"; "11002:"; "6:b"]%string.
Proof.
  intros C options toks.
  exact (@spelling_lines_per_token C options toks eq_refl).
Defined.

Lemma spelling_unknown_format_witness :
  let C := example_collaborators [] in
  let options := mkOptions (Some "m2"%string) None None None None in
  @check_errors C (Some false) options [begin_tok; word "a"; end_tok]
    = Ok EmptyString.
Proof.
  intros C options.
  exact (proj2 (@spelling_unknown_format C options
                  [begin_tok; word "a"; end_tok] eq_refl eq_refl eq_refl)).
Defined.

Lemma test_spelling_text_witness :
  let C := example_collaborators [] in
  let options := mkOptions (Some "text"%string) None None None None in
  let toks := [begin_tok; word "a"; end_tok; begin_tok; word "b"; end_tok] in
  @check_spelling C options toks = (@test_spelling C options toks).1.
Proof.
  intros C options toks.
  exact (proj1 (@test_spelling_text C options toks eq_refl eq_refl)).
Defined.

(** ** The token entries of the json record *)

Lemma token_map_lookup (ts : list Terminal) :
  forall (m : gmap Z string) (key : Z),
    foldl (fun m t => <[index t := terminal_text t]> m) m ts !! key =
      match last (filter (fun t => index t = key) ts) with
      | Some t => Some (terminal_text t)
      | None => m !! key
      end.
Proof.
  induction ts as [|t ts IH]; intros m key; [reflexivity|].
  simpl foldl. rewrite IH, filter_cons.
  destruct (decide (index t = key)) as [Hk|Hk].
  - rewrite last_cons.
    destruct (last (filter (fun t0 => index t0 = key) ts)); [reflexivity|].
    by rewrite Hk, lookup_insert_eq.
  - destruct (last (filter (fun t0 => index t0 = key) ts)); [reflexivity|].
    by rewrite lookup_insert_ne.
Qed.

Section AnnTokens.
Context `{Collaborators}.

(** X24: the [tokens] entries of a json record follow the checked
    sentence's tokens one to one; kind and original text (or, without
    one, the text) always come from the token, and the text shown comes
    from the token too unless the sentence was parsed and some terminal
    points at the token's position, in which case it is the text of the
    last such terminal. *)
Theorem ann_tokens_entries (sent : CheckedSentence)
    (entries : list AnnTokenDict) :
  ann_tokens sent = Ok entries ->
  length entries = length (tokens sent) /\
  forall (ix : nat) (d : CorrectToken) (entry : AnnTokenDict),
    tokens sent !! ix = Some d -> entries !! ix = Some entry ->
    k entry = kind d /\
    o entry = or_ (original d) (txt d) /\
    x entry =
      match tree sent, terminals sent with
      | Some _, Some ts =>
          match last (filter (fun t => index t = Z.of_nat ix) ts) with
          | Some t => Some (terminal_text t)
          | None => txt d
          end
      | _, _ => txt d
      end.
Proof.
  unfold ann_tokens. destruct (tree sent) as [tr|].
  - destruct (terminals sent) as [ts|]; [|discriminate].
    intros [= <-]. split; [apply length_imap|].
    intros ix d entry Hd. rewrite list_lookup_imap, Hd. simpl.
    intros [= <-]. simpl. rewrite token_map_lookup, lookup_empty.
    repeat split. by destruct (last _).
  - intros [= <-]. split; [apply length_fmap|].
    intros ix d entry Hd. rewrite list_lookup_fmap, Hd. simpl.
    by intros [= <-].
Qed.

(** X25: in the text format a sentence whose annotations carry no
    suggestion comes out as it came in: the splicing pass leaves the
    working copy equal to the token list, so the text written is the
    detokenization of the received tokens, the text json calls
    [original] and m2 puts after S. *)
Theorem text_without_suggestions (options : Options) (st : GrammarState)
    (toklist : list CorrectToken) (sent : CheckedSentence) :
  String.eqb (default "json"%string (format options)) "text"
  || String.eqb (default "json"%string (format options)) "textplustoks"
    = true ->
  get (annotations_opt options) false = false ->
  check_tokens toklist = Some sent ->
  terminals_given sent ->
  Forall (fun xann => suggest xann = None) (annotations sent) ->
  splice toklist (sorted false (annotations sent))
    = Ok (toklist, seq 0 (length toklist)) /\
  check_grammar_sentence options st toklist =
    Ok {| accumul := accumul st ++ [detokenize toklist true];
          annlist := annlist st;
          offset := (token_offsets_loop 0 toklist ∅ (offset st)).2 |}.
Proof.
  intros Hfmt Hann Hsent Hgiven Hnone.
  assert (Hloop : forall arev s0,
            Forall (fun xann => suggest xann = None) arev ->
            splice_loop s0 arev = Ok s0).
  { induction arev as [|xann arev IH]; intros s0 Hall; [reflexivity|].
    apply Forall_cons in Hall as [Hx Hall].
    rewrite splice_loop_cons. unfold splice_step. destruct s0 as [store l].
    rewrite Hx. by apply IH. }
  assert (Hsp : splice toklist (sorted false (annotations sent))
                = Ok (toklist, seq 0 (length toklist))).
  { unfold splice. apply Hloop. by rewrite !sorted_perm. }
  split; [exact Hsp|].
  unfold check_grammar_sentence. rewrite Hsent.
  destruct (ann_tokens_given sent Hgiven) as [tokens ->]. simpl.
  destruct (token_offsets_loop 0 toklist ∅ (offset st)) as [m off'].
  rewrite Hfmt, Hsp. simpl. rewrite deref_seq.
  unfold echo_annotations. by rewrite Hann.
Qed.

End AnnTokens.

Lemma ann_tokens_entries_witness :
  let sent := {| tree := Some tt;
                 terminals := Some [mkTerminal 1 "x"; mkTerminal 1 "y"];
                 tokens := [begin_tok; word "a"];
                 tidy_text := "a"; annotations := [] |} in
  let entries := [mkAnnTokenDict S_BEGIN None None;
                  mkAnnTokenDict WORD (Some "y"%string) (Some "a"%string)] in
  ann_tokens sent = Ok entries /\
  length entries = length (tokens sent).
Proof.
  intros sent entries.
  assert (Ha : ann_tokens sent = Ok entries) by (vm_compute; reflexivity).
  split; [exact Ha|].
  exact (proj1 (ann_tokens_entries sent entries Ha)).
Defined.

Lemma text_without_suggestions_witness :
  let anns := [ann 0 0 "X" None] in
  let C := example_collaborators anns in
  let options := mkOptions (Some "text"%string) None None None None in
  let st := {| accumul := []; annlist := []; offset := 0 |} in
  let toklist := [begin_tok; word "a"; end_tok] in
  @check_grammar_sentence C options st toklist =
    Ok {| accumul := ["a"%string]; annlist := []; offset := 1 |}.
Proof.
  intros anns C options st toklist.
  assert (Hnone : Forall (fun xann => suggest xann = None) anns)
    by (by repeat constructor).
  exact (proj2 (@text_without_suggestions C options st toklist
                  {| tree := None; terminals := None; tokens := toklist;
                     tidy_text := "a"; annotations := anns |}
                  eq_refl eq_refl eq_refl (or_introl eq_refl) Hnone)).
Defined.
